(** * VCF sample filter: a shallow embedding of [VCF_SampleFilter_V1_1.cpp]

    The development follows the class [VCFSampleFilter]:
    - the text primitives the class relies on ([std::getline] on a string
      stream, the [ostringstream] join loops, [::isspace]);
    - [load_samples], [process_header], [process_data_line] and the
      dispatch in the body of [worker_thread];
    - the reader / worker / writer threads with their two queues, as a
      labelled transition system with one transition per critical section. *)

From Stdlib Require Import Ascii String.
From stdpp Require Import base gmap sets list sorting strings.

Local Open Scope string_scope.
Local Open Scope list_scope.
Local Open Scope nat_scope.

(** ** Text primitives *)

Definition TAB : ascii := "009"%char.
Definition NL : ascii := "010"%char.

(** One call of [std::getline(is, token, delim)] on the unread remainder
    [s] of the stream: characters up to the delimiter are extracted, the
    delimiter is consumed and dropped.  Returns the token and what is left
    in the stream. *)
Fixpoint read_until (delim : ascii) (s : string) : string * string :=
  match s with
  | EmptyString => (EmptyString, EmptyString)
  | String c s' =>
      if Ascii.eqb c delim then (EmptyString, s')
      else let '(tok, rest) := read_until delim s' in (String c tok, rest)
  end.

(** The stream converts to [false] when nothing could be extracted, which
    happens exactly when it was already at its end. *)
Definition getline (delim : ascii) (s : string) : option (string * string) :=
  match s with
  | EmptyString => None
  | String _ _ => Some (read_until delim s)
  end.

(** [while (std::getline(is, token, delim)) fields.push_back(token);]
    Every successful call consumes at least one character, so
    [S (String.length s)] rounds always reach the end of the stream. *)
Fixpoint getline_loop (fuel : nat) (delim : ascii) (s : string)
    (fields : list string) : list string :=
  match fuel with
  | 0 => fields
  | S fuel' =>
      match getline delim s with
      | None => fields
      | Some (tok, rest) => getline_loop fuel' delim rest (fields ++ [tok])
      end
  end.

Definition getlines (delim : ascii) (s : string) : list string :=
  getline_loop (S (String.length s)) delim s [].

(** The tab split at the head of [process_header] and [process_data_line]. *)
Definition split_fields (line : string) : list string := getlines TAB line.

(** [for (i = 0; i < v.size(); i++) { if (i > 0) oss << "\t"; oss << v[i]; }] *)
Fixpoint join_from (i : nat) (v : list string) (oss : string) : string :=
  match v with
  | [] => oss
  | f :: v' =>
      join_from (S i) v' ((if (0 <? i)%nat then oss +:+ String TAB "" else oss) +:+ f)
  end.

Definition join_tab (v : list string) : string := join_from 0 v "".

(** [::isspace] in the "C" locale: space and the five controls 9..13. *)
Definition isspace (c : ascii) : bool :=
  let n := nat_of_ascii c in ((n =? 32) || ((9 <=? n) && (n <=? 13)))%nat.

(** [s.erase(std::remove_if(s.begin(), s.end(), ::isspace), s.end())] *)
Fixpoint remove_space (s : string) : string :=
  match s with
  | EmptyString => EmptyString
  | String c s' =>
      if isspace c then remove_space s' else String c (remove_space s')
  end.

(** Number of tab characters of a text; a text of [n] tab-separated fields
    carries [n - 1] of them. *)
Fixpoint count_tabs (s : string) : nat :=
  match s with
  | EmptyString => 0
  | String c s' => (if Ascii.eqb c TAB then 1 else 0) + count_tabs s'
  end.

(** Tab-separated text written field by field; used to spell out concrete
    lines. *)
Fixpoint tsv (fields : list string) : string :=
  match fields with
  | [] => ""
  | [f] => f
  | f :: fields' => f +:+ String TAB (tsv fields')
  end.

(** A text file written line by line, each line closed by a newline. *)
Fixpoint text (lines : list string) : string :=
  match lines with
  | [] => ""
  | line :: lines' => line +:+ String NL (text lines')
  end.

(** ** Errors

    Every failure of the class is a [std::runtime_error]; the constructors
    name the four [throw] sites and [what] gives their messages. *)
Inductive error : Type :=
  | CannotOpenSampleFile (sample_file : string)
  | NoSamplesFound
  | FormatColumnNotFound
  | NoMatchingSamples.

Definition what (e : error) : string :=
  match e with
  | CannotOpenSampleFile f => "Cannot open sample file: " +:+ f
  | NoSamplesFound => "No samples found in sample file"
  | FormatColumnNotFound => "FORMAT column not found in header"
  | NoMatchingSamples => "No matching samples found in VCF header"
  end.

(** The names under which the design document files the throw sites. *)
Inductive error_kind : Type := ConfigError | FormatError | NoMatchError.

Definition kind_of (e : error) : error_kind :=
  match e with
  | CannotOpenSampleFile _ | NoSamplesFound => ConfigError
  | FormatColumnNotFound => FormatError
  | NoMatchingSamples => NoMatchError
  end.

Inductive result (A : Type) : Type :=
  | Ok (a : A)
  | Throw (e : error).
Arguments Ok {A} a.
Arguments Throw {A} e.

(** ** [load_samples]

    The sample file is [None] when the [ifstream] cannot be opened and
    [Some content] otherwise.  [target_samples] starts empty (the object is
    freshly constructed when [filter] runs). *)
Definition insert_sample (target_samples : gset string) (sample : string)
    : gset string :=
  let sample := remove_space sample in
  if decide (sample = "") then target_samples
  else {[ sample ]} ∪ target_samples.

Definition load_samples (sample_file : string) (file : option string)
    : result (gset string) :=
  match file with
  | None => Throw (CannotOpenSampleFile sample_file)
  | Some content =>
      let target_samples := foldl insert_sample ∅ (getlines NL content) in
      if decide (target_samples = ∅) then Throw NoSamplesFound
      else Ok target_samples
  end.

(** The loader in the words of the design document: one name per line,
    leading and trailing whitespace stripped, the interior of the name
    left as it is, empty results dropped.  It is the reference
    [load_samples] is compared with. *)
Fixpoint strip_leading (s : string) : string :=
  match s with
  | EmptyString => EmptyString
  | String c s' => if isspace c then strip_leading s' else s
  end.

Fixpoint strip_trailing (s : string) : string :=
  match s with
  | EmptyString => EmptyString
  | String c s' =>
      let s'' := strip_trailing s' in
      if (isspace c && String.eqb s'' "")%bool then EmptyString
      else String c s''
  end.

Definition strip (s : string) : string := strip_trailing (strip_leading s).

Definition insert_stripped (target_set : gset string) (line : string)
    : gset string :=
  let name := strip line in
  if decide (name = "") then target_set else {[ name ]} ∪ target_set.

Definition load_stripped (content : string) : gset string :=
  foldl insert_stripped ∅ (getlines NL content).

(** ** [process_header]

    [sample_indices] is a member of the object: the function appends to
    whatever it already holds, and hands back the new value together with
    the rewritten header.  Its entries are values of the loop counter [i],
    positions in the header's field vector, and are kept in [nat] (the
    [int] of the source does not overflow on a header of fewer than 2^31
    fields). *)
Fixpoint find_format (fields : list string) (i : nat) : option nat :=
  match fields with
  | [] => None
  | f :: fields' =>
      if String.eqb f "FORMAT" then Some i else find_format fields' (S i)
  end.

(** [for (i = format_idx + 1; i < fields.size(); i++)
       if (target_samples.count(fields[i])) { push_back(i); push_back(fields[i]); }]
    run on the fields from position [i] on. *)
Fixpoint scan_samples (target_samples : gset string) (rest : list string)
    (i : nat) (sample_indices : list nat) (output_fields : list string)
    : list nat * list string :=
  match rest with
  | [] => (sample_indices, output_fields)
  | f :: rest' =>
      if decide (f ∈ target_samples)
      then scan_samples target_samples rest' (S i)
             (sample_indices ++ [i]) (output_fields ++ [f])
      else scan_samples target_samples rest' (S i) sample_indices output_fields
  end.

Definition process_header (target_samples : gset string)
    (sample_indices : list nat) (header_line : string)
    : result (list nat * string) :=
  let fields := split_fields header_line in
  match find_format fields 0 with
  | None => Throw FormatColumnNotFound
  | Some format_idx =>
      let '(sample_indices, output_fields) :=
        scan_samples target_samples (drop (format_idx + 1) fields)
          (format_idx + 1) sample_indices (take (format_idx + 1) fields) in
      match sample_indices with
      | [] => Throw NoMatchingSamples
      | _ :: _ => Ok (sample_indices, join_tab output_fields)
      end
  end.

(** ** [process_data_line] *)

(** [if (idx < fields.size()) oss << fields[idx]; else oss << ".";] *)
Definition sample_field (fields : list string) (idx : nat) : string :=
  if (idx <? length fields)%nat then nth idx fields "" else ".".

(** [for (int idx : sample_indices) { oss << "\t"; ... }] *)
Fixpoint emit_samples (fields : list string) (sample_indices : list nat)
    (oss : string) : string :=
  match sample_indices with
  | [] => oss
  | idx :: rest =>
      emit_samples fields rest
        (oss +:+ String TAB "" +:+ sample_field fields idx)
  end.

Definition process_data_line (sample_indices : list nat) (line : string)
    : string :=
  let fields := split_fields line in
  if (length fields <? 9)%nat then line
  else emit_samples fields sample_indices (join_from 0 (take 9 fields) "").

(** ** The body of the worker loop (lines 260-269) *)

Definition starts_with_hash (line : string) : bool :=
  match line with
  | String c _ => Ascii.eqb c "#"%char
  | EmptyString => false
  end.

Definition process_line (target_samples : gset string)
    (sample_indices : list nat) (line : string)
    : result (list nat * string) :=
  if (String.eqb line "" || starts_with_hash line)%bool then
    if String.prefix "#CHROM" line
    then process_header target_samples sample_indices line
    else Ok (sample_indices, line)
  else Ok (sample_indices, process_data_line sample_indices line).

(** ** The threads of [filter]

    One reader, [num_threads] workers and one writer share the two queues.
    Each transition below is one critical section of the source (the code
    between taking a mutex and releasing it), or the processing a worker
    does on its own line between its two critical sections.  A
    condition-variable wait is the guard of the transition that follows
    it.  The processing of one line is a single transition: it reads and
    writes [sample_indices] without any lock, and the interleavings of two
    workers inside it are not followed any further.  The input is the list
    of lines the reader obtains from the file (one per [std::getline] or
    [gzgets] call); the output file is assumed to open. *)

Definition MAX_QUEUE_SIZE : nat := 1000.

(** Where a worker stands in the body of its loop. *)
Inductive worker : Type :=
  | Waiting                     (* at [input_cv.wait], line 244 *)
  | Popped (line : string)      (* holds [line], lines 254-259 *)
  | Processed (line : string)   (* holds [processed_line], lines 270-273 *)
  | Exited.                     (* left the loop through [break] *)

Global Instance worker_eq_dec : EqDecision worker.
Proof. solve_decision. Defined.

Record state : Type := State {
  target_samples : gset string;
  sample_indices : list nat;
  input : list string;
  input_queue : list string;
  finished_reading : bool;
  workers : list worker;
  output_queue : list string;
  lines_processed : nat;
  finished_processing : bool;
  out_file : list string;
  writer_done : bool;
  terminated : option error
}.

Inductive action : Type :=
  | ReaderPush                  (* lines 229-236 *)
  | ReaderFinish                (* lines 193-194 *)
  | WorkerPop (i : nat)         (* lines 243-257 *)
  | WorkerExit (i : nat)        (* lines 246-248 *)
  | WorkerProcess (i : nat)     (* lines 260-269 *)
  | WorkerPush (i : nat)        (* lines 272-279 *)
  | MainSignal                  (* lines 380-389 *)
  | WriterWrite                 (* lines 335-351 *)
  | WriterExit.                 (* lines 338-340 *)

Definition is_exited (w : worker) : bool :=
  match w with Exited => true | _ => false end.

Definition do_action (a : action) (s : state) : option state :=
  let '(State ts si inp iq fr ws oq lp fp out wd term) := s in
  match term with
  | Some _ => None              (* std::terminate has ended the process *)
  | None =>
    match a with
    | ReaderPush =>
        match fr, inp with
        | false, line :: inp' =>
            if (length iq <? MAX_QUEUE_SIZE)%nat
            then Some (State ts si inp' (iq ++ [line]) fr ws oq lp fp out wd term)
            else None
        | _, _ => None
        end
    | ReaderFinish =>
        match fr, inp with
        | false, [] => Some (State ts si inp iq true ws oq lp fp out wd term)
        | _, _ => None
        end
    | WorkerPop i =>
        match ws !! i, iq with
        | Some Waiting, line :: iq' =>
            Some (State ts si inp iq' fr (<[ i := Popped line ]> ws)
                    oq lp fp out wd term)
        | _, _ => None
        end
    | WorkerExit i =>
        match ws !! i, iq, fr with
        | Some Waiting, [], true =>
            Some (State ts si inp iq fr (<[ i := Exited ]> ws)
                    oq lp fp out wd term)
        | _, _, _ => None
        end
    | WorkerProcess i =>
        match ws !! i with
        | Some (Popped line) =>
            match process_line ts si line with
            | Ok (si', processed_line) =>
                Some (State ts si' inp iq fr (<[ i := Processed processed_line ]> ws)
                        oq lp fp out wd term)
            | Throw e =>
                (* nothing catches the exception in the worker thread *)
                Some (State ts si inp iq fr ws oq lp fp out wd (Some e))
            end
        | _ => None
        end
    | WorkerPush i =>
        match ws !! i with
        | Some (Processed processed_line) =>
            if (length oq <? MAX_QUEUE_SIZE)%nat
            then Some (State ts si inp iq fr (<[ i := Waiting ]> ws)
                         (oq ++ [processed_line]) (S lp) fp out wd term)
            else None
        | _ => None
        end
    | MainSignal =>
        if (fr && forallb is_exited ws && negb fp)%bool
        then Some (State ts si inp iq fr ws oq lp true out wd term)
        else None
    | WriterWrite =>
        match wd, oq with
        | false, line :: oq' =>
            Some (State ts si inp iq fr ws oq' lp fp (out ++ [line]) wd term)
        | _, _ => None
        end
    | WriterExit =>
        match wd, oq, fp with
        | false, [], true =>
            Some (State ts si inp iq fr ws oq lp fp out true term)
        | _, _, _ => None
        end
    end
  end.

Definition step (s s' : state) : Prop := ∃ a, do_action a s = Some s'.

Definition reachable (s0 s : state) : Prop := rtc step s0 s.

(** A schedule is the order in which the threads get to act. *)
Fixpoint run (schedule : list action) (s : state) : option state :=
  match schedule with
  | [] => Some s
  | a :: schedule' =>
      match do_action a s with
      | Some s' => run schedule' s'
      | None => None
      end
  end.

(** The object when the threads are started: [load_samples] has filled
    [target_samples], everything else is as constructed. *)
Definition start (target_samples : gset string) (num_threads : nat)
    (lines : list string) : state :=
  State target_samples [] lines [] false (replicate num_threads Waiting)
        [] 0 false [] false None.

(** [filter]: [load_samples] runs in the calling thread before any thread
    is created, so its exception leaves [filter] with no pipeline at all.
    (The module keeps the member's name apart from the list [filter].) *)
Module VCFSampleFilter.
Definition filter (sample_file : string) (file : option string)
    (num_threads : nat) (lines : list string) : result state :=
  match load_samples sample_file file with
  | Throw e => Throw e
  | Ok target_samples => Ok (start target_samples num_threads lines)
  end.
End VCFSampleFilter.

(** The run is over when the writer has left its loop: [filter] joins it
    last. *)
Definition completed (s : state) : Prop :=
  writer_done s = true ∧ terminated s = None.

(** What a single thread doing all the work in input order would write:
    the lines are processed one after the other, [sample_indices] carried
    from each to the next, up to the first exception. *)
Fixpoint process_lines (target_samples : gset string)
    (sample_indices : list nat) (lines : list string)
    : result (list nat * list string) :=
  match lines with
  | [] => Ok (sample_indices, [])
  | line :: lines' =>
      match process_line target_samples sample_indices line with
      | Throw e => Throw e
      | Ok (sample_indices', processed_line) =>
          match process_lines target_samples sample_indices' lines' with
          | Throw e => Throw e
          | Ok (sample_indices'', out) =>
              Ok (sample_indices'', processed_line :: out)
          end
      end
  end.

(** ** Bookkeeping for the proofs about the threads *)

(** A worker between its pop and its push holds one line. *)
Definition busy (w : worker) : nat :=
  match w with
  | Popped _ | Processed _ => 1
  | Waiting | Exited => 0
  end.

Definition in_flight (s : state) : nat := sum_list (busy <$> workers s).

(** How many transitions a worker, a queued line and each flag still have
    ahead of them at most. *)
Definition weight (w : worker) : nat :=
  match w with
  | Exited => 0
  | Waiting => 1
  | Processed _ => 3
  | Popped _ => 4
  end.

Definition pending (b : bool) : nat := if b then 0 else 1.

Definition measure (s : state) : nat :=
  5 * length (input s) + 4 * length (input_queue s) +
  sum_list (weight <$> workers s) + length (output_queue s) +
  pending (finished_reading s) + pending (finished_processing s) +
  pending (writer_done s) +
  match terminated s with Some _ => 0 | None => 1 end.

(** What holds of every state of a run of [num_threads] workers on
    [lines]: the queues respect their capacity, the flags are raised in
    the order reader, workers, main thread, writer, and every line of the
    input is in exactly one place. *)
Definition wf_state (targets : gset string) (num_threads : nat)
    (lines : list string) (s : state) : Prop :=
  target_samples s = targets ∧
  length (workers s) = num_threads ∧
  length (input_queue s) ≤ MAX_QUEUE_SIZE ∧
  length (output_queue s) ≤ MAX_QUEUE_SIZE ∧
  (finished_reading s = true → input s = []) ∧
  (Exited ∈ workers s → finished_reading s = true ∧ input_queue s = []) ∧
  (finished_processing s = true →
     finished_reading s = true ∧ Forall (λ w, w = Exited) (workers s)) ∧
  (writer_done s = true →
     finished_processing s = true ∧ output_queue s = []) ∧
  (∃ popped,
     lines = popped ++ input_queue s ++ input s ∧
     length popped =
       in_flight s + length (output_queue s) + length (out_file s)) ∧
  lines_processed s = length (output_queue s) + length (out_file s).

(** With a single worker: what is written, queued for writing or held
    processed, followed by what processing the rest in order will give,
    is what processing the whole input in order gives. *)
Definition held_raw (s : state) : list string :=
  match workers s with
  | [Popped line] => [line]
  | _ => []
  end.

Definition held_processed (s : state) : list string :=
  match workers s with
  | [Processed line] => [line]
  | _ => []
  end.

Definition in_order (targets : gset string) (lines : list string)
    (s : state) : Prop :=
  match terminated s with
  | Some e => process_lines targets [] lines = Throw e
  | None =>
      match process_lines targets (sample_indices s)
              (held_raw s ++ input_queue s ++ input s) with
      | Throw e => process_lines targets [] lines = Throw e
      | Ok (indices, rest) =>
          process_lines targets [] lines =
            Ok (indices,
                out_file s ++ output_queue s ++ held_processed s ++ rest)
      end
  end.

(** ** A small VCF file, used in the examples *)

Definition vcf_meta : string := "##fileformat=VCFv4.2".

Definition vcf_header : string :=
  tsv ["#CHROM"; "POS"; "ID"; "REF"; "ALT"; "QUAL"; "FILTER"; "INFO";
       "FORMAT"; "S1"; "S2"].

Definition vcf_rec1 : string :=
  tsv ["1"; "100"; "."; "G"; "T"; "50"; "PASS"; "."; "GT"; "0/0"; "0/1"].

Definition vcf_rec2 : string :=
  tsv ["1"; "200"; "."; "A"; "C"; "60"; "PASS"; "."; "GT"; "1/1"; "0/0"].

(** The same file filtered for the sample S2. *)
Definition vcf_header_S2 : string :=
  tsv ["#CHROM"; "POS"; "ID"; "REF"; "ALT"; "QUAL"; "FILTER"; "INFO";
       "FORMAT"; "S2"].

Definition vcf_rec1_S2 : string :=
  tsv ["1"; "100"; "."; "G"; "T"; "50"; "PASS"; "."; "GT"; "0/1"].

Definition vcf_rec2_S2 : string :=
  tsv ["1"; "200"; "."; "A"; "C"; "60"; "PASS"; "."; "GT"; "0/0"].

(** The order in which a single worker takes a file of three lines
    through the pipeline when every line is written before the next is
    read. *)
Definition one_at_a_time (i : nat) : list action :=
  [ReaderPush; WorkerPop i; WorkerProcess i; WorkerPush i; WriterWrite].

Definition finish (num_threads : nat) : list action :=
  ReaderFinish :: (WorkerExit <$> seq 0 num_threads) ++ [MainSignal; WriterExit].

(** The reader pushes everything, then the workers 0 and 1 take one
    record each and worker 1 is the first to push its result. *)
Definition swapping_schedule : list action :=
  one_at_a_time 0 ++
  [ReaderPush; ReaderPush; WorkerPop 0; WorkerPop 1;
   WorkerProcess 1; WorkerPush 1; WorkerProcess 0; WorkerPush 0;
   WriterWrite; WriterWrite] ++
  finish 8.

(** Worker 0 holds the header, worker 1 the record after it; worker 1
    processes first, the results are pushed in input order. *)
Definition racing_schedule : list action :=
  [ReaderPush; ReaderPush; WorkerPop 0; WorkerPop 1;
   WorkerProcess 1; WorkerProcess 0; WorkerPush 0; WorkerPush 1;
   WriterWrite; WriterWrite] ++
  finish 2.

(** * The rest of the program: readers, writer and [main] *)

(** ** More text primitives *)

(** Whether the character [c] occurs in [s]. *)
Fixpoint contains (c : ascii) (s : string) : bool :=
  match s with
  | EmptyString => false
  | String c' s' => (Ascii.eqb c' c || contains c s')%bool
  end.

(** [if (!s.empty() && s.back() == d) s.pop_back();] *)
Fixpoint drop_final (d : ascii) (s : string) : string :=
  match s with
  | EmptyString => EmptyString
  | String c s' =>
      match s' with
      | EmptyString => if Ascii.eqb c d then EmptyString else s
      | String _ _ => String c (drop_final d s')
      end
  end.

(** ** [read_regular_stream] and [read_gz_stream]

    An input file is [None] when it cannot be opened and [Some content]
    otherwise; for a gzipped file [content] is what zlib inflates it to.
    The readers give [None] where the source throws (the file cannot be
    opened) and otherwise the lines they push, in order. *)

Definition read_regular_stream (file : option string) : option (list string) :=
  match file with
  | None => None
  | Some content => Some (getlines NL content)
  end.

Definition NUL : ascii := "000"%char.

(** [sizeof(buffer)] for [char buffer[65536]]. *)
Definition BUFFER_SIZE : nat := 256 * 256.

(** [gzgets(file, buf, len)] on the remainder [s] of the uncompressed
    stream: it transfers up to [len - 1] characters and stops behind a
    newline, which it keeps; it returns [NULL] when the stream is at its
    end.  [gzgets_chars n] transfers at most [n] characters. *)
Fixpoint gzgets_chars (n : nat) (s : string) : string * string :=
  match n with
  | 0 => (EmptyString, s)
  | S n' =>
      match s with
      | EmptyString => (EmptyString, EmptyString)
      | String c s' =>
          if Ascii.eqb c NL then (String c EmptyString, s')
          else let '(buf, rest) := gzgets_chars n' s' in (String c buf, rest)
      end
  end.

Definition gzgets (len : nat) (s : string) : option (string * string) :=
  match s with
  | EmptyString => None
  | String _ _ => Some (gzgets_chars (len - 1) s)
  end.

(** [std::string line(buffer)]: the characters of the buffer up to its
    first NUL. *)
Fixpoint c_str (buffer : string) : string :=
  match buffer with
  | EmptyString => EmptyString
  | String c buffer' =>
      if Ascii.eqb c NUL then EmptyString else String c (c_str buffer')
  end.

(** [while (gzgets(file, buffer, sizeof(buffer))) { ... push(line); }]
    Every successful call takes at least one character off the stream. *)
Fixpoint gzgets_loop (fuel : nat) (len : nat) (s : string)
    (queue : list string) : list string :=
  match fuel with
  | 0 => queue
  | S fuel' =>
      match gzgets len s with
      | None => queue
      | Some (buffer, rest) =>
          gzgets_loop fuel' len rest
            (queue ++ [drop_final NL (c_str buffer)])
      end
  end.

Definition gz_lines (len : nat) (content : string) : list string :=
  gzgets_loop (S (String.length content)) len content [].

Definition read_gz_stream (file : option string) : option (list string) :=
  match file with
  | None => None
  | Some content => Some (gz_lines BUFFER_SIZE content)
  end.

(** [reader_thread]: [gz] is what [is_gzipped] answered.  An exception of
    the reader is caught and reported, and the thread goes on to raise
    [finished_reading]: the pipeline then sees an input without lines. *)
Definition reader_thread (gz : bool) (file : option string) : list string :=
  match (if gz then read_gz_stream file else read_regular_stream file) with
  | Some lines => lines
  | None => []
  end.

(** ** [write_regular_stream]: [out_file << line << "\n"] for each line
    taken from the output queue. *)
Definition output_text (s : state) : string := text (out_file s).

(** ** The threads when the output file cannot be created

    [write_regular_stream] and [write_gz_stream] throw before they enter
    their loop, and [writer_thread] catches the exception and returns: the
    other threads run on, and nothing takes a line off the output queue. *)
Definition is_writer (a : action) : bool :=
  match a with
  | WriterWrite | WriterExit => true
  | _ => false
  end.

Definition step_writer_failed (s s' : state) : Prop :=
  ∃ a, is_writer a = false ∧ do_action a s = Some s'.

Definition reachable_writer_failed (s0 s : state) : Prop :=
  rtc step_writer_failed s0 s.

(** ** [main] *)

(** [std::stoi]: optional whitespace, an optional sign, then decimal
    digits; what follows the digits is ignored.  It throws
    [std::invalid_argument] when there is no digit and [std::out_of_range]
    when the value does not fit an [int]; both are [None] here. *)
Definition digit_of (c : ascii) : option Z :=
  let n := nat_of_ascii c in
  if ((48 <=? n) && (n <=? 57))%nat then Some (Z.of_nat (n - 48)) else None.

Fixpoint digits (s : string) (acc : option Z) : option Z :=
  match s with
  | EmptyString => acc
  | String c s' =>
      match digit_of c with
      | Some d => digits s' (Some (10 * default 0%Z acc + d)%Z)
      | None => acc
      end
  end.

Definition INT_MIN : Z := (- 2147483648)%Z.
Definition INT_MAX : Z := 2147483647%Z.

Definition stoi (str : string) : option Z :=
  let s := strip_leading str in
  let '(negative, s) :=
    match s with
    | String c s' =>
        if Ascii.eqb c "-"%char then (true, s')
        else if Ascii.eqb c "+"%char then (false, s')
        else (false, s)
    | EmptyString => (false, s)
    end in
  match digits s None with
  | None => None
  | Some v =>
      let v := if negative then (- v)%Z else v in
      if ((INT_MIN <=? v) && (v <=? INT_MAX))%Z then Some v else None
  end.

(** The local variables of [main] that the argument loop fills. *)
Record options : Type := Options {
  input_file : string;
  output_file : string;
  sample_file : string;
  compress_output : bool;
  num_threads : Z
}.

Definition default_options : options := Options "" "" "" false 1.

(** How [main] leaves the argument handling: with an exit code, through
    [std::terminate] (the exception of [std::stoi] is thrown outside the
    [try] block), or on to [filter] with the options read. *)
Inductive parsed : Type :=
  | Exit (code : nat)
  | Terminate
  | Run (o : options).

Definition is_option (arg short long : string) : bool :=
  (String.eqb arg short || String.eqb arg long)%bool.

(** The loop over [argv[1..]] (lines 415-460) and the check of the
    required arguments (lines 463-467). *)
Fixpoint parse_arguments (args : list string) (o : options) : parsed :=
  match args with
  | [] =>
      if (String.eqb (input_file o) "" || String.eqb (output_file o) "" ||
          String.eqb (sample_file o) "")%bool
      then Exit 1
      else Run o
  | arg :: args' =>
      if is_option arg "-h" "--help" then Exit 0
      else if is_option arg "-i" "--input" then
        match args' with
        | value :: args'' =>
            parse_arguments args''
              (Options value (output_file o) (sample_file o)
                 (compress_output o) (num_threads o))
        | [] => Exit 1
        end
      else if is_option arg "-o" "--output" then
        match args' with
        | value :: args'' =>
            parse_arguments args''
              (Options (input_file o) value (sample_file o)
                 (compress_output o) (num_threads o))
        | [] => Exit 1
        end
      else if is_option arg "-s" "--samples" then
        match args' with
        | value :: args'' =>
            parse_arguments args''
              (Options (input_file o) (output_file o) value
                 (compress_output o) (num_threads o))
        | [] => Exit 1
        end
      else if is_option arg "-z" "--compress" then
        parse_arguments args'
          (Options (input_file o) (output_file o) (sample_file o)
             true (num_threads o))
      else if is_option arg "-t" "--threads" then
        match args' with
        | value :: args'' =>
            match stoi value with
            | None => Terminate
            | Some n =>
                if (n <? 1)%Z then Exit 1
                else
                  parse_arguments args''
                    (Options (input_file o) (output_file o) (sample_file o)
                       (compress_output o) n)
            end
        | [] => Exit 1
        end
      else Exit 1
  end.

(** How far [main] gets before the threads run: the exception of
    [load_samples] is caught by the [try] block around [filter] and turns
    into exit code 1; otherwise the threads are started on the lines the
    reader delivers.  [files] gives the content of a file by name ([None]
    when it cannot be opened), [gz] is what [is_gzipped] answers for the
    input file. *)
Inductive launched : Type :=
  | Exited_with (code : nat)
  | Terminated
  | Started (s : state).

Definition main (args : list string) (files : string → option string)
    (gz : bool) : launched :=
  match parse_arguments args default_options with
  | Exit code => Exited_with code
  | Terminate => Terminated
  | Run o =>
      match VCFSampleFilter.filter (sample_file o) (files (sample_file o))
              (Z.to_nat (num_threads o))
              (reader_thread gz (files (input_file o))) with
      | Throw _ => Exited_with 1
      | Ok s => Started s
      end
  end.

(** ** Bookkeeping for the proofs about several workers *)

(** The line a worker holds unprocessed, and the one it holds processed. *)
Definition raw_line (w : worker) : list string :=
  match w with
  | Popped line => [line]
  | _ => []
  end.

Definition done_line (w : worker) : list string :=
  match w with
  | Processed line => [line]
  | _ => []
  end.

(** The lines that have not been processed yet, and those that have. *)
Definition raw_lines (s : state) : list string :=
  input s ++ input_queue s ++ concat (raw_line <$> workers s).

Definition processed_lines (s : state) : list string :=
  concat (done_line <$> workers s) ++ output_queue s ++ out_file s.

Definition is_header (line : string) : bool := String.prefix "#CHROM" line.

(** How many header lines are still to be processed. *)
Definition headers_pending (s : state) : nat :=
  length (filter (λ line, is_header line = true) (raw_lines s)).

(** On an input with a single header line, [before ++ header_line ::
    after]: a line read from the file, a line made from one, and how far
    the header has got. *)
Definition from_file (before after : list string) (header_line : string)
    (line : string) : Prop :=
  line = header_line ∨ line ∈ before ++ after.

Definition made (targets : gset string) (before after : list string)
    (header' : string) (indices : list nat) (out : string) : Prop :=
  out = header' ∨
  ∃ line, line ∈ before ++ after ∧
    (process_line targets [] line = Ok ([], out) ∨
     process_line targets indices line = Ok (indices, out)).

Definition resolving (indices : list nat) (s : state) : Prop :=
  (headers_pending s = 1 ∧ sample_indices s = []) ∨
  (headers_pending s = 0 ∧ sample_indices s = indices).

(** * Properties of the text primitives *)

Section text.
Implicit Types (s tok rest : string) (c d : ascii) (v : list string).

Lemma getline_loop_acc fuel d s acc :
  getline_loop fuel d s acc = acc ++ getline_loop fuel d s [].
Proof.
  revert s acc. induction fuel as [|fuel IH]; intros s acc; simpl.
  - by rewrite app_nil_r.
  - destruct (getline d s) as [[tok rest]|]; [|by rewrite app_nil_r].
    rewrite (IH rest (acc ++ [tok])), (IH rest [tok]).
    by rewrite <- app_assoc.
Qed.

Lemma read_until_length d s :
  String.length (read_until d s).2 ≤ String.length s.
Proof.
  induction s as [|c s IH]; simpl; [lia|].
  destruct (Ascii.eqb c d); simpl; [lia|].
  destruct (read_until d s) as [tok rest]; simpl in *. lia.
Qed.

Lemma read_until_rest d c s :
  String.length (read_until d (String c s)).2 ≤ String.length s.
Proof.
  simpl. destruct (Ascii.eqb c d); simpl; [lia|].
  pose proof (read_until_length d s).
  by destruct (read_until d s) as [tok rest].
Qed.

(** More rounds than characters never change the outcome of the loop. *)
Lemma getline_loop_fuel d fuel1 fuel2 s acc :
  String.length s < fuel1 → String.length s < fuel2 →
  getline_loop fuel1 d s acc = getline_loop fuel2 d s acc.
Proof.
  revert fuel2 s acc.
  induction fuel1 as [|fuel1 IH]; intros fuel2 s acc H1 H2; [lia|].
  destruct fuel2 as [|fuel2]; [lia|].
  destruct s as [|c s]; [done|].
  pose proof (read_until_rest d c s) as Hlen.
  cbn [getline_loop getline].
  destruct (read_until d (String c s)) as [tok rest].
  simpl in H1, H2, Hlen. apply IH; lia.
Qed.

(** The loop, one call of [getline] at a time. *)
Lemma getlines_unfold d s :
  getlines d s =
    match getline d s with
    | None => []
    | Some (tok, rest) => tok :: getlines d rest
    end.
Proof.
  destruct s as [|c s]; [done|].
  pose proof (read_until_rest d c s) as Hlen.
  unfold getlines at 1. cbn [getline_loop getline].
  destruct (read_until d (String c s)) as [tok rest].
  rewrite getline_loop_acc. cbn [app]. f_equal.
  unfold getlines. simpl in Hlen. apply getline_loop_fuel; simpl; lia.
Qed.

Lemma getlines_nil d : getlines d "" = [].
Proof. done. Qed.

(** The split, character by character: a delimiter closes a field, any
    other character extends the first field of what follows. *)
Lemma getlines_cons d c s :
  getlines d (String c s) =
    if Ascii.eqb c d then "" :: getlines d s
    else match getlines d s with
         | [] => [String c ""]
         | tok :: v => String c tok :: v
         end.
Proof.
  rewrite getlines_unfold. simpl.
  destruct (Ascii.eqb c d); [done|].
  rewrite (getlines_unfold d s).
  destruct s as [|c' s]; [done|]. unfold getline.
  by destruct (read_until d (String c' s)) as [tok rest].
Qed.

Lemma string_app_cons c s1 s2 : String c s1 +:+ s2 = String c (s1 +:+ s2).
Proof. done. Qed.

Lemma string_app_nil_l s : "" +:+ s = s.
Proof. done. Qed.

Lemma string_app_nil_r s : s +:+ "" = s.
Proof. induction s as [|c s IH]; [done|]. by rewrite string_app_cons, IH. Qed.

Lemma string_app_assoc s1 s2 s3 : (s1 +:+ s2) +:+ s3 = s1 +:+ (s2 +:+ s3).
Proof. induction s1 as [|c s1 IH]; [done|]. by rewrite !string_app_cons, IH. Qed.

Lemma count_tabs_app s1 s2 :
  count_tabs (s1 +:+ s2) = count_tabs s1 + count_tabs s2.
Proof.
  induction s1 as [|c s1 IH]; [done|].
  rewrite string_app_cons. simpl. rewrite IH. lia.
Qed.

(** No field produced by the tab split contains a tab. *)
Lemma split_fields_no_tab line :
  Forall (λ f, count_tabs f = 0) (split_fields line).
Proof.
  unfold split_fields.
  induction line as [|c s IH]; [constructor|].
  rewrite getlines_cons. destruct (Ascii.eqb c TAB) eqn:E.
  - by constructor.
  - destruct (getlines TAB s) as [|tok v].
    + repeat constructor. simpl. by rewrite E.
    + inversion_clear IH as [|?? Htok Hv]. constructor; [|done].
      simpl. by rewrite E, Htok.
Qed.

(** *** The join loop *)

Lemma join_from_app i v w oss :
  join_from i (v ++ w) oss = join_from (i + length v) w (join_from i v oss).
Proof.
  revert i oss. induction v as [|f v IH]; intros i oss; simpl.
  - by rewrite Nat.add_0_r.
  - rewrite IH. f_equal. lia.
Qed.

Lemma join_from_pos i v oss :
  0 < i → join_from i v oss = oss +:+ join_from 1 v "".
Proof.
  revert i oss. induction v as [|f v IH]; intros i oss Hi; simpl.
  - by rewrite string_app_nil_r.
  - destruct i as [|i]; [lia|]. simpl.
    rewrite (IH (S (S i))), (IH 2) by lia.
    by rewrite !string_app_assoc.
Qed.

Lemma join_tab_nil : join_tab [] = "".
Proof. done. Qed.

Lemma join_tab_singleton f : join_tab [f] = f.
Proof. done. Qed.

Lemma join_tab_cons f g v :
  join_tab (f :: g :: v) = f +:+ String TAB (join_tab (g :: v)).
Proof.
  unfold join_tab. simpl. rewrite !string_app_nil_l.
  rewrite (join_from_pos 2), (join_from_pos 1 v g) by lia.
  by rewrite !string_app_assoc.
Qed.

Lemma join_tab_snoc v f :
  v ≠ [] → join_tab (v ++ [f]) = join_tab v +:+ String TAB f.
Proof.
  intros Hv. unfold join_tab. rewrite join_from_app. simpl.
  destruct v as [|g v]; [done|]. simpl.
  replace (0 <? S (length v)) with true by done. by rewrite !string_app_assoc.
Qed.

Lemma count_tabs_join v :
  Forall (λ f, count_tabs f = 0) v → count_tabs (join_tab v) = length v - 1.
Proof.
  induction v as [|f v IH]; intros Hv; [done|].
  inversion_clear Hv as [|?? Hf Hv'].
  destruct v as [|g v]; [by rewrite join_tab_singleton|].
  rewrite join_tab_cons, count_tabs_app. cbn [count_tabs].
  rewrite Hf, IH by done. simpl. lia.
Qed.

(** Splitting a joined list gives the list back, unless its last field is
    empty: [getline] does not report an empty field at the very end. *)
Lemma split_join v :
  Forall (λ f, count_tabs f = 0) v → last v ≠ Some "" →
  split_fields (join_tab v) = v.
Proof.
  unfold split_fields.
  induction v as [|f v IH]; intros Hv Hlast; [done|].
  inversion_clear Hv as [|?? Hf Hv'].
  assert (∀ s w, (w = [] → s ≠ "") → count_tabs s = 0 →
            getlines TAB (s +:+ match w with [] => "" | _ => String TAB (join_tab w) end)
            = s :: match w with [] => [] | _ => getlines TAB (join_tab w) end)
    as Hfield.
  { clear. intros s w Hs. induction s as [|c s IHs]; intros Htab.
    - destruct w as [|g w]; [naive_solver|].
      rewrite string_app_nil_l, getlines_cons. done.
    - rewrite string_app_cons, getlines_cons. simpl in Htab.
      destruct (Ascii.eqb c TAB); [done|].
      destruct s as [|c' s].
      + rewrite string_app_nil_l. destruct w as [|g w]; [done|].
        by rewrite getlines_cons.
      + rewrite IHs by done. done. }
  destruct v as [|g v].
  - rewrite join_tab_singleton. specialize (Hfield f []). rewrite string_app_nil_r in Hfield.
    apply Hfield; [|done]. intros _ ->. done.
  - rewrite join_tab_cons. rewrite (Hfield f (g :: v)) by done.
    f_equal. apply IH; [done|]. by rewrite last_cons_cons in Hlast.
Qed.
Lemma split_fields_field s rest :
  count_tabs s = 0 →
  split_fields (s +:+ String TAB rest) = s :: split_fields rest.
Proof.
  unfold split_fields. induction s as [|c s IH]; intros Htab.
  - by rewrite string_app_nil_l, getlines_cons.
  - rewrite string_app_cons, getlines_cons. simpl in Htab.
    destruct (Ascii.eqb c TAB); [done|]. by rewrite IH.
Qed.

(** An empty last field is not seen by the split. *)
Lemma split_join_trailing v :
  Forall (λ f, count_tabs f = 0) v →
  split_fields (join_tab (v ++ [""])) = v.
Proof.
  induction v as [|f v IH]; intros Hv; [done|].
  inversion_clear Hv as [|?? Hf Hv'].
  assert (∃ g w, v ++ [""] = g :: w) as (g & w & Hgw)
    by (destruct v; simpl; eauto).
  rewrite <- app_comm_cons, Hgw, join_tab_cons, <- Hgw.
  by rewrite split_fields_field, IH.
Qed.
End text.

(** * The record projector and the header resolver *)

Section projector.
Implicit Types (fields v : list string) (sample_indices : list nat).

Lemma emit_samples_join fields sample_indices v :
  v ≠ [] →
  emit_samples fields sample_indices (join_tab v) =
    join_tab (v ++ (sample_field fields <$> sample_indices)).
Proof.
  revert v. induction sample_indices as [|idx rest IH]; intros v Hv; simpl.
  - by rewrite app_nil_r.
  - rewrite string_app_cons, string_app_nil_l, <- join_tab_snoc by done.
    rewrite IH by (by destruct v). by rewrite <- app_assoc.
Qed.

Lemma sample_field_no_tab fields idx :
  Forall (λ f, count_tabs f = 0) fields →
  count_tabs (sample_field fields idx) = 0.
Proof.
  intros Hf. unfold sample_field.
  destruct (Nat.ltb_spec idx (length fields)) as [Hlt|]; [|done].
  rewrite Forall_forall in Hf. apply Hf.
  apply list_elem_of_In, nth_In. done.
Qed.

Lemma process_data_line_short sample_indices line :
  length (split_fields line) < 9 →
  process_data_line sample_indices line = line.
Proof.
  intros H. unfold process_data_line.
  by destruct (Nat.ltb_spec (length (split_fields line)) 9); [|lia].
Qed.

Lemma process_data_line_long sample_indices line :
  9 ≤ length (split_fields line) →
  process_data_line sample_indices line =
    join_tab (take 9 (split_fields line) ++
              (sample_field (split_fields line) <$> sample_indices)).
Proof.
  intros H. unfold process_data_line.
  destruct (Nat.ltb_spec (length (split_fields line)) 9); [lia|].
  apply (emit_samples_join _ _ (take 9 (split_fields line))).
  intros Hnil. apply (f_equal length) in Hnil.
  rewrite length_take in Hnil. cbn [length] in Hnil. lia.
Qed.
End projector.

(** C3. A record of fewer than 9 tab-separated fields is returned as it
    is.  Any other record becomes its first 9 fields followed by one field
    per entry of the Column Index Map, in map order, all joined by tabs: an
    entry inside the record contributes the field at that position, an
    entry at or beyond the record's field count contributes ".".  The
    output therefore has 9 + (map length) fields, that is, one tab less. *)
Theorem process_data_line_projects (sample_indices : list nat) (line : string) :
  let fields := split_fields line in
  (length fields < 9 → process_data_line sample_indices line = line) ∧
  (9 ≤ length fields →
     let out := take 9 fields ++ (sample_field fields <$> sample_indices) in
     process_data_line sample_indices line = join_tab out ∧
     take 9 out = take 9 fields ∧
     (∀ k idx f, sample_indices !! k = Some idx → fields !! idx = Some f →
        out !! (9 + k) = Some f) ∧
     (∀ k idx, sample_indices !! k = Some idx → length fields ≤ idx →
        out !! (9 + k) = Some ".") ∧
     length out = 9 + length sample_indices ∧
     count_tabs (process_data_line sample_indices line) + 1 =
       9 + length sample_indices).
Proof.
  intros fields. split; [apply process_data_line_short|].
  intros Hlen out.
  assert (length (take 9 fields) = 9) as Htake by (rewrite length_take; lia).
  assert (length out = 9 + length sample_indices) as Hout.
  { unfold out. by rewrite length_app, length_fmap, Htake. }
  split_and!.
  - by apply process_data_line_long.
  - unfold out. rewrite take_app_le by lia. by rewrite take_ge by lia.
  - intros k idx f Hk Hidx. unfold out.
    rewrite lookup_app_r by lia. rewrite Htake, Nat.add_comm, Nat.add_sub.
    rewrite list_lookup_fmap, Hk. simpl. f_equal. unfold sample_field.
    pose proof (lookup_lt_Some _ _ _ Hidx).
    destruct (Nat.ltb_spec idx (length fields)); [|lia].
    by apply nth_lookup_Some with (d := "") in Hidx.
  - intros k idx Hk Hidx. unfold out.
    rewrite lookup_app_r by lia. rewrite Htake, Nat.add_comm, Nat.add_sub.
    rewrite list_lookup_fmap, Hk. simpl. f_equal. unfold sample_field.
    by destruct (Nat.ltb_spec idx (length fields)); [lia|].
  - done.
  - rewrite process_data_line_long by done. fold fields. fold out.
    rewrite count_tabs_join, Hout; [lia|].
    unfold out. apply Forall_app. split.
    + apply Forall_take, split_fields_no_tab.
    + apply Forall_fmap, Forall_true. intros idx. simpl.
      apply sample_field_no_tab, split_fields_no_tab.
Qed.

Section resolver.
Context (target_samples : gset string).
Implicit Types (fields rest : list string) (sample_indices : list nat).

(** The pivot search stops at the first field equal to "FORMAT". *)
Lemma find_format_Some fields i format_idx :
  find_format fields i = Some format_idx ↔
  ∃ k, format_idx = i + k ∧ fields !! k = Some "FORMAT" ∧
       ∀ j, j < k → fields !! j ≠ Some "FORMAT".
Proof.
  revert i. induction fields as [|f fields IH]; intros i; simpl.
  - split; [done|]. by intros (k & _ & ? & _).
  - destruct (String.eqb_spec f "FORMAT") as [->|Hne].
    + split.
      * intros [= <-]. exists 0. split_and!; [lia|done|lia].
      * intros (k & -> & Hk & Hfirst). destruct k as [|k]; [f_equal; lia|].
        by destruct (Hfirst 0); [lia|].
    + rewrite IH. split.
      * intros (k & -> & Hk & Hfirst). exists (S k). split_and!; [lia|done|].
        intros [|j] ?; simpl; [congruence|]. apply Hfirst. lia.
      * intros (k & -> & Hk & Hfirst). destruct k as [|k]; [simpl in Hk; congruence|].
        exists k. split_and!; [lia|done|].
        intros j ?. apply (Hfirst (S j)). lia.
Qed.

Lemma find_format_None fields i :
  find_format fields i = None ↔ "FORMAT" ∉ fields.
Proof.
  revert i. induction fields as [|f fields IH]; intros i; simpl.
  - split; [|done]. intros _. apply not_elem_of_nil.
  - rewrite not_elem_of_cons.
    destruct (String.eqb_spec f "FORMAT") as [->|Hne].
    + split; [done|]. by intros [[] _].
    + rewrite IH. split; [by intros ?; split|by intros [_ ?]].
Qed.

(** The scan after the pivot: it appends to [sample_indices] the
    positions of the fields found in the target set, in increasing
    order, and to [output_fields] those fields themselves. *)
Lemma scan_samples_spec rest i sample_indices output_fields :
  ∃ found,
    scan_samples target_samples rest i sample_indices output_fields =
      (sample_indices ++ found,
       output_fields ++ filter (.∈ target_samples) rest) ∧
    Forall2 (λ p f, i ≤ p ∧ rest !! (p - i) = Some f)
      found (filter (.∈ target_samples) rest) ∧
    StronglySorted lt found ∧
    (∀ p, p ∈ found ↔
          i ≤ p ∧ ∃ f, rest !! (p - i) = Some f ∧ f ∈ target_samples).
Proof.
  revert i sample_indices output_fields.
  induction rest as [|f rest IH]; intros i sample_indices output_fields.
  { exists []. simpl. rewrite !app_nil_r. split_and!; [done|done|constructor|].
    intros p. rewrite elem_of_nil. split; [done|]. by intros (_ & f & ? & _). }
  simpl. destruct (decide (f ∈ target_samples)) as [Hf|Hf].
  - destruct (IH (S i) (sample_indices ++ [i]) (output_fields ++ [f]))
      as (found & -> & Hpos & Hsorted & Hmem).
    exists (i :: found). rewrite filter_cons_True by done.
    rewrite <- !app_assoc. split_and!; [done| | |].
    + constructor; [by rewrite Nat.sub_diag|].
      eapply Forall2_impl; [done|]. intros p g [Hp Hg]. split; [lia|].
      by replace (p - i) with (S (p - S i)) by lia.
    + constructor; [done|]. apply Forall_forall. intros p Hp%Hmem. lia.
    + intros p. rewrite elem_of_cons, Hmem. split.
      * intros [->|(Hp & g & Hg & Hgt)].
        -- rewrite Nat.sub_diag. split; [done|]. by exists f.
        -- split; [lia|]. exists g. by replace (p - i) with (S (p - S i)) by lia.
      * intros (Hp & g & Hg & Hgt).
        destruct (decide (p = i)) as [->|]; [by left|]. right.
        split; [lia|]. exists g. by replace (p - i) with (S (p - S i)) in Hg by lia.
  - destruct (IH (S i) sample_indices output_fields)
      as (found & -> & Hpos & Hsorted & Hmem).
    exists found. rewrite filter_cons_False by done. split_and!; [done| |done|].
    + eapply Forall2_impl; [done|]. intros p g [Hp Hg]. split; [lia|].
      by replace (p - i) with (S (p - S i)) by lia.
    + intros p. rewrite Hmem. split.
      * intros (Hp & g & Hg & Hgt). split; [lia|]. exists g.
        by replace (p - i) with (S (p - S i)) by lia.
      * intros (Hp & g & Hg & Hgt).
        destruct (decide (p = i)) as [->|].
        { rewrite Nat.sub_diag in Hg. injection Hg as ->. done. }
        split; [lia|]. exists g. by replace (p - i) with (S (p - S i)) in Hg by lia.
Qed.

(** What [process_header] returns once the pivot is known. *)
Lemma process_header_found sample_indices header_line format_idx :
  find_format (split_fields header_line) 0 = Some format_idx →
  let fields := split_fields header_line in
  ∃ found,
    process_header target_samples sample_indices header_line =
      match sample_indices ++ found with
      | [] => Throw NoMatchingSamples
      | _ :: _ =>
          Ok (sample_indices ++ found,
              join_tab (take (S format_idx) fields ++
                        filter (.∈ target_samples) (drop (S format_idx) fields)))
      end ∧
    Forall2 (λ p f, fields !! p = Some f)
      found (filter (.∈ target_samples) (drop (S format_idx) fields)) ∧
    StronglySorted lt found ∧
    (∀ p, p ∈ found ↔
          format_idx < p ∧ ∃ f, fields !! p = Some f ∧ f ∈ target_samples).
Proof.
  intros Hfmt fields. unfold process_header. rewrite Hfmt. fold fields.
  replace (format_idx + 1) with (S format_idx) by lia.
  destruct (scan_samples_spec (drop (S format_idx) fields) (S format_idx)
              sample_indices (take (S format_idx) fields))
    as (found & -> & Hpos & Hsorted & Hmem).
  exists found. split_and!; [done| |done|].
  - eapply Forall2_impl; [done|]. intros p f [Hp Hf]. simpl in Hf.
    rewrite lookup_drop in Hf. by replace (S format_idx + (p - S format_idx)) with p in Hf by lia.
  - intros p. rewrite Hmem. split.
    + intros (Hp & f & Hf & Hin). split; [lia|]. exists f. split; [|done].
      rewrite lookup_drop in Hf.
      by replace (S format_idx + (p - S format_idx)) with p in Hf by lia.
    + intros (Hp & f & Hf & Hin). split; [lia|]. exists f. split; [|done].
      rewrite lookup_drop.
      by replace (S format_idx + (p - S format_idx)) with p by lia.
Qed.
End resolver.

(** C4. When "FORMAT" first occurs at position [format_idx] of the header
    and some later field is in the target set, the header resolver returns
    the fields up to and including the pivot followed by the later fields
    that are in the target set, in header order; the Column Index Map lists
    the positions of exactly those fields, in increasing order; the
    rewritten header has (pivot position + 1) + (map length) fields. *)
Theorem process_header_resolves (target_samples : gset string)
    (header_line : string) (format_idx : nat) :
  let fields := split_fields header_line in
  fields !! format_idx = Some "FORMAT" →
  (∀ j, j < format_idx → fields !! j ≠ Some "FORMAT") →
  (∃ f, f ∈ drop (S format_idx) fields ∧ f ∈ target_samples) →
  let names := filter (.∈ target_samples) (drop (S format_idx) fields) in
  let output_fields := take (S format_idx) fields ++ names in
  ∃ sample_indices,
    process_header target_samples [] header_line =
      Ok (sample_indices, join_tab output_fields) ∧
    Forall2 (λ p f, fields !! p = Some f) sample_indices names ∧
    StronglySorted lt sample_indices ∧
    (∀ p, p ∈ sample_indices ↔
          format_idx < p ∧ ∃ f, fields !! p = Some f ∧ f ∈ target_samples) ∧
    length output_fields = S format_idx + length sample_indices ∧
    count_tabs (join_tab output_fields) + 1 =
      S format_idx + length sample_indices.
Proof.
  intros fields Hfmt Hfirst (f & Hf & Hin) names output_fields.
  assert (find_format fields 0 = Some format_idx) as Hfind.
  { apply find_format_Some. exists format_idx. done. }
  destruct (process_header_found target_samples [] header_line format_idx Hfind)
    as (found & Hrun & Hpos & Hsorted & Hmem).
  fold fields in Hrun, Hpos, Hmem. fold names in Hrun, Hpos.
  simpl in Hrun. exists found.
  assert (length names = length found) as Hlen by (symmetry; by eapply Forall2_length).
  assert (f ∈ names) as Hnames by (by apply list_elem_of_filter).
  assert (length (take (S format_idx) fields) = S format_idx) as Htake.
  { rewrite length_take. apply lookup_lt_Some in Hfmt. lia. }
  assert (length output_fields = S format_idx + length found) as Hout.
  { unfold output_fields. rewrite length_app. lia. }
  split_and!; [|done..|].
  - rewrite Hrun. destruct found as [|p found]; [|done].
    destruct names; [by apply elem_of_nil in Hnames|done].
  - rewrite count_tabs_join, Hout; [lia|].
    unfold output_fields, names. apply Forall_app. split.
    + apply Forall_take, split_fields_no_tab.
    + apply Forall_forall. intros g [_ Hg]%list_elem_of_filter. revert g Hg.
      apply Forall_forall, Forall_drop, split_fields_no_tab.
Qed.

(** * The target set loader *)

Section loader.
Implicit Types (target_samples : gset string) (lines : list string).

Lemma elem_of_insert_sample target_samples sample name :
  name ∈ insert_sample target_samples sample ↔
  name ∈ target_samples ∨ (name ≠ "" ∧ name = remove_space sample).
Proof.
  unfold insert_sample. destruct (decide (remove_space sample = "")) as [E|E].
  - split; [by left|]. intros [?|[? ->]]; done.
  - rewrite elem_of_union, elem_of_singleton. split.
    + intros [->|?]; [right|left]; done.
    + intros [?|[_ ->]]; [right|left]; done.
Qed.

Lemma elem_of_foldl_insert_sample lines target_samples name :
  name ∈ foldl insert_sample target_samples lines ↔
  name ∈ target_samples ∨
  (name ≠ "" ∧ ∃ line, line ∈ lines ∧ name = remove_space line).
Proof.
  revert target_samples.
  induction lines as [|line lines IH]; intros target_samples; simpl.
  - split; [by left|]. intros [?|(_ & line & []%elem_of_nil & _)]. done.
  - rewrite IH, elem_of_insert_sample. split.
    + intros [[?|[? ->]]|(? & l & ? & ->)].
      * by left.
      * right. split; [done|]. exists line. split; [left|done].
      * right. split; [done|]. exists l. split; [by right|done].
    + intros [?|(? & l & [->|?]%elem_of_cons & ->)].
      * by left; left.
      * by left; right.
      * right. split; [done|]. by exists l.
Qed.

(** The names [load_samples] collects: every line with its whitespace
    removed, unless nothing is left of it. *)
Lemma elem_of_load_samples sample_file content target_samples name :
  load_samples sample_file (Some content) = Ok target_samples →
  name ∈ target_samples ↔
  name ≠ "" ∧ ∃ line, line ∈ getlines NL content ∧ name = remove_space line.
Proof.
  unfold load_samples. case_decide; [done|]. intros [= <-].
  rewrite elem_of_foldl_insert_sample, elem_of_empty. tauto.
Qed.

Lemma load_samples_no_empty_name sample_file file target_samples :
  load_samples sample_file file = Ok target_samples → "" ∉ target_samples.
Proof.
  destruct file as [content|]; [|done]. intros Hload Hin.
  by apply (elem_of_load_samples _ _ _ _ Hload) in Hin as [? _].
Qed.

(** [load_samples] fails exactly when the file cannot be opened or no
    line has a character other than whitespace. *)
Lemma load_samples_Throw sample_file file e :
  load_samples sample_file file = Throw e ↔
  (file = None ∧ e = CannotOpenSampleFile sample_file) ∨
  (∃ content, file = Some content ∧ e = NoSamplesFound ∧
     ∀ line, line ∈ getlines NL content → remove_space line = "").
Proof.
  destruct file as [content|]; simpl.
  - case_decide as Hempty.
    + split.
      * intros [= <-]. right. exists content. split_and!; [done..|].
        intros line Hline. destruct (decide (remove_space line = "")) as [|Hne]; [done|].
        assert (remove_space line ∈ (∅ : gset string)) as []%elem_of_empty.
        rewrite <- Hempty. apply elem_of_foldl_insert_sample. right.
        split; [done|]. by exists line.
      * intros [[? _]|(? & _ & -> & _)]; done.
    + split; [done|]. intros [[? _]|(c & [= <-] & _ & Hblank)]; [done|].
      destruct Hempty. apply set_eq. intros name.
      rewrite elem_of_foldl_insert_sample, elem_of_empty.
      split; [|done]. intros [[]|(Hne & line & Hline & ->)].
      by apply Hne, Hblank.
  - split.
    + intros [= <-]. by left.
    + intros [[_ ->]|(? & ? & _)]; done.
Qed.

(** Whitespace at either end of a line is among the whitespace
    [remove_space] deletes. *)
Lemma remove_space_strip_leading s :
  remove_space (strip_leading s) = remove_space s.
Proof.
  induction s as [|c s IH]; simpl; [done|].
  destruct (isspace c) eqn:Hc; simpl; [done|]. by rewrite Hc.
Qed.

Lemma remove_space_strip_trailing s :
  remove_space (strip_trailing s) = remove_space s.
Proof.
  induction s as [|c s IH]; simpl; [done|].
  destruct (isspace c) eqn:Hc; simpl.
  - destruct (String.eqb_spec (strip_trailing s) "") as [E|E].
    + by rewrite <- IH, E.
    + simpl. by rewrite Hc.
  - by rewrite Hc, IH.
Qed.

Lemma remove_space_strip s : remove_space (strip s) = remove_space s.
Proof.
  unfold strip. by rewrite remove_space_strip_trailing, remove_space_strip_leading.
Qed.
End loader.

(** C6, as the code has it.  The loader reads one name per line, deletes
    every whitespace character of the line (those at either end and those
    inside the name alike), drops the lines of which nothing is left and
    inserts the rest: the set holds exactly the non-empty results.  On a
    line whose stripped text has no whitespace inside, that is the
    stripped text itself. *)
Theorem load_samples_removes_all_whitespace (sample_file content : string)
    (target_samples : gset string) :
  load_samples sample_file (Some content) = Ok target_samples →
  ∀ name,
    (name ∈ target_samples ↔
     name ≠ "" ∧
     ∃ line, line ∈ getlines NL content ∧ name = remove_space (strip line)) ∧
    (name ∈ target_samples → remove_space name = name).
Proof.
  intros Hload name. rewrite (elem_of_load_samples _ _ _ _ Hload). split.
  - split; intros (? & line & ? & ->); (split; [done|]); exists line;
      (split; [done|]); by rewrite remove_space_strip.
  - intros (_ & line & _ & ->). clear.
    induction line as [|c s IH]; simpl; [done|].
    destruct (isspace c) eqn:Hc; [done|]. simpl. by rewrite Hc, IH.
Qed.

(** * The dispatch in the worker loop *)

Section dispatch.
Context (targets : gset string).
Implicit Types (indices : list nat) (line : string).

Lemma prefix_app p s : String.prefix p (p +:+ s) = true.
Proof.
  induction p as [|c p IH]; [by destruct s|].
  rewrite string_app_cons. cbn [String.prefix].
  by destruct (ascii_dec c c).
Qed.

Lemma prefix_inv p s : String.prefix p s = true → ∃ s', s = p +:+ s'.
Proof.
  revert s. induction p as [|c p IH]; intros s Hp; [by exists s|].
  destruct s as [|c' s]; [done|]. cbn [String.prefix] in Hp.
  destruct (ascii_dec c c') as [->|]; [|done].
  destruct (IH s Hp) as [s' ->]. by exists s'.
Qed.

Lemma process_line_header indices line :
  String.prefix "#CHROM" line = true →
  process_line targets indices line = process_header targets indices line.
Proof.
  intros Hp. unfold process_line. rewrite Hp.
  destruct (prefix_inv _ _ Hp) as [s' ->]. done.
Qed.

Lemma process_line_comment indices line :
  starts_with_hash line = true → String.prefix "#CHROM" line = false →
  process_line targets indices line = Ok (indices, line).
Proof.
  intros Hh Hp. unfold process_line. rewrite Hh, Hp.
  by rewrite orb_true_r.
Qed.

Lemma process_line_data indices line :
  line ≠ "" → starts_with_hash line = false →
  process_line targets indices line =
    Ok (indices, process_data_line indices line).
Proof.
  intros Hne Hh. unfold process_line. rewrite Hh.
  by destruct (String.eqb_spec line "").
Qed.

(** The exceptions of [process_header], and when each is thrown. *)
Lemma process_header_no_format indices header_line :
  "FORMAT" ∉ split_fields header_line →
  process_header targets indices header_line = Throw FormatColumnNotFound.
Proof.
  intros H%(find_format_None _ 0). unfold process_header. by rewrite H.
Qed.

Lemma process_header_no_match header_line format_idx :
  let fields := split_fields header_line in
  fields !! format_idx = Some "FORMAT" →
  (∀ j, j < format_idx → fields !! j ≠ Some "FORMAT") →
  (∀ f, f ∈ drop (S format_idx) fields → f ∉ targets) →
  process_header targets [] header_line = Throw NoMatchingSamples.
Proof.
  intros fields Hfmt Hfirst Hnone.
  assert (find_format fields 0 = Some format_idx) as Hfind.
  { apply find_format_Some. by exists format_idx. }
  destruct (process_header_found targets [] header_line format_idx Hfind)
    as (found & -> & _ & _ & Hmem).
  fold fields in Hmem. destruct found as [|p found]; [done|].
  destruct (proj1 (Hmem p)) as (Hp & f & Hf & Hin); [left|].
  destruct (Hnone f); [|done].
  apply list_elem_of_lookup. exists (p - S format_idx).
  rewrite lookup_drop.
  by replace (S format_idx + (p - S format_idx)) with p by lia.
Qed.

Lemma process_header_Throw header_line e :
  let fields := split_fields header_line in
  process_header targets [] header_line = Throw e →
  (e = FormatColumnNotFound ∧ "FORMAT" ∉ fields) ∨
  (e = NoMatchingSamples ∧ "FORMAT" ∈ fields).
Proof.
  intros fields Hrun.
  destruct (find_format fields 0) as [format_idx|] eqn:Hfind.
  - right.
    destruct (process_header_found targets [] header_line format_idx Hfind)
      as (found & Hrun' & _).
    rewrite Hrun in Hrun'. simpl in Hrun'.
    destruct found as [|p found]; [|done]. injection Hrun' as ->.
    apply find_format_Some in Hfind as (k & -> & Hk & _).
    split; [done|]. by eapply list_elem_of_lookup_2.
  - left. unfold process_header in Hrun. fold fields in Hrun.
    rewrite Hfind in Hrun. injection Hrun as <-.
    split; [done|]. by apply (find_format_None _ 0).
Qed.
End dispatch.

Section fatal.
(** Once [std::terminate] has been called nothing runs any more. *)
Lemma terminated_stuck s e a : terminated s = Some e → do_action a s = None.
Proof. destruct s. simpl. by intros ->. Qed.

Lemma do_action_process_throw s i line e :
  terminated s = None → workers s !! i = Some (Popped line) →
  process_line (target_samples s) (sample_indices s) line = Throw e →
  ∃ s', do_action (WorkerProcess i) s = Some s' ∧ terminated s' = Some e.
Proof.
  destruct s. simpl. intros -> -> ->. eauto.
Qed.
End fatal.

(** C5. The boundary failures.  [filter] throws out of [load_samples],
    before any thread is created, when the sample file cannot be opened or
    no line of it has a non-whitespace character, and for no other reason;
    both exceptions are filed as ConfigError.  [process_header], run on the
    first header of a run, throws the FORMAT-column exception (FormatError)
    when no field is FORMAT, throws the no-matching-samples exception
    (NoMatchError) when no field after the first FORMAT is a target, and
    throws nothing else.  An exception of the header resolver ends the
    process: the state it leaves has no transition. *)
Theorem boundary_failures (sample_file : string) (file : option string)
    (num_threads : nat) (lines : list string) (targets : gset string)
    (header_line : string) (format_idx : nat) :
  let fields := split_fields header_line in
  ((file = None ∨
    ∃ content, file = Some content ∧
      ∀ line, line ∈ getlines NL content → remove_space line = "") →
   ∃ e, VCFSampleFilter.filter sample_file file num_threads lines = Throw e ∧
        kind_of e = ConfigError) ∧
  (∀ e, VCFSampleFilter.filter sample_file file num_threads lines = Throw e →
        kind_of e = ConfigError ∧
        (file = None ∨
         ∃ content, file = Some content ∧
           ∀ line, line ∈ getlines NL content → remove_space line = "")) ∧
  ("FORMAT" ∉ fields →
   ∀ indices,
     process_header targets indices header_line = Throw FormatColumnNotFound ∧
     kind_of FormatColumnNotFound = FormatError) ∧
  (fields !! format_idx = Some "FORMAT" →
   (∀ j, j < format_idx → fields !! j ≠ Some "FORMAT") →
   (∀ f, f ∈ drop (S format_idx) fields → f ∉ targets) →
   process_header targets [] header_line = Throw NoMatchingSamples ∧
   kind_of NoMatchingSamples = NoMatchError) ∧
  (∀ e, process_header targets [] header_line = Throw e →
        (e = FormatColumnNotFound ∧ "FORMAT" ∉ fields) ∨
        (e = NoMatchingSamples ∧ "FORMAT" ∈ fields)) ∧
  (∀ s i e,
     terminated s = None → workers s !! i = Some (Popped header_line) →
     process_line (target_samples s) (sample_indices s) header_line = Throw e →
     ∃ s', do_action (WorkerProcess i) s = Some s' ∧
           terminated s' = Some e ∧ ∀ a, do_action a s' = None).
Proof.
  intros fields. split_and!.
  - intros Hfile.
    assert (∃ e, load_samples sample_file file = Throw e ∧ kind_of e = ConfigError)
      as (e & Hload & Hkind).
    { destruct Hfile as [->|(content & -> & Hblank)].
      - eexists. split; [by apply load_samples_Throw; left|done].
      - exists NoSamplesFound. split; [|done].
        apply load_samples_Throw. right. by exists content. }
    exists e. unfold VCFSampleFilter.filter. by rewrite Hload.
  - intros e. unfold VCFSampleFilter.filter.
    destruct (load_samples sample_file file) as [ts|e'] eqn:Hload; [done|].
    intros [= ->].
    apply load_samples_Throw in Hload as [[-> ->]|(content & -> & -> & Hblank)].
    + split; [done|by left].
    + split; [done|]. right. by exists content.
  - intros Hno indices. split; [|done]. by apply process_header_no_format.
  - intros Hfmt Hfirst Hnone. split; [|done].
    by eapply process_header_no_match.
  - intros e. apply process_header_Throw.
  - intros s i e Hterm Hw Hrun.
    destruct (do_action_process_throw s i header_line e) as (s' & Hs' & Ht);
      [done..|].
    exists s'. split_and!; [done..|]. intros a. by eapply terminated_stuck.
Qed.


(** C10. The header test is a test on the first six characters: every
    line that begins with "#CHROM", whatever follows and whatever
    [sample_indices] holds by then, goes through [process_header]; so does
    a line beginning "#CHROMOSOME", and so does a second header line, whose
    matches are appended to the indices of the first.  The empty line takes
    the branch of the comments and is passed through. *)
Theorem header_test_is_a_prefix_test (targets : gset string)
    (indices : list nat) (rest : string) :
  process_line targets indices ("#CHROM" +:+ rest) =
    process_header targets indices ("#CHROM" +:+ rest) ∧
  process_line targets indices "" = Ok (indices, "") ∧
  process_line {[ "B" ]} []
      (tsv ["#CHROMOSOME"; "POS"; "FORMAT"; "A"; "B"]) =
    Ok ([4], tsv ["#CHROMOSOME"; "POS"; "FORMAT"; "B"]) ∧
  process_lines {[ "B" ]} []
      [tsv ["#CHROM"; "FORMAT"; "A"; "B"]; tsv ["#CHROM"; "FORMAT"; "B"; "A"]] =
    Ok ([3; 2], [tsv ["#CHROM"; "FORMAT"; "B"]; tsv ["#CHROM"; "FORMAT"; "B"]]).
Proof.
  split_and!.
  - apply process_line_header, prefix_app.
  - done.
  - by vm_compute.
  - by vm_compute.
Qed.

(** * Filtering what the filter wrote *)

Section refilter.
Context (targets : gset string).
Implicit Types (fields v : list string) (indices : list nat) (line : string).

(** When every field after the pivot is a target, the scan keeps them
    all and numbers them consecutively. *)
Lemma scan_samples_all rest i indices output_fields :
  Forall (.∈ targets) rest →
  scan_samples targets rest i indices output_fields =
    (indices ++ seq i (length rest), output_fields ++ rest).
Proof.
  revert i indices output_fields.
  induction rest as [|f rest IH]; intros i indices output_fields Hall; simpl.
  - by rewrite !app_nil_r.
  - inversion_clear Hall as [|?? Hf Hrest].
    rewrite decide_True by done. rewrite IH by done.
    by rewrite <- !app_assoc.
Qed.

(** The first field of a line carries the line's first characters up to
    its first tab. *)
Lemma split_fields_prefix p s :
  p ≠ "" → count_tabs p = 0 →
  ∃ t v, split_fields (p +:+ s) = (p +:+ t) :: v.
Proof.
  unfold split_fields. induction p as [|c p IH]; [done|]. intros _ Htab.
  simpl in Htab. rewrite string_app_cons, getlines_cons.
  destruct (Ascii.eqb c TAB); [done|]. simpl in Htab.
  destruct p as [|c' p].
  - rewrite string_app_nil_l. destruct (getlines TAB s) as [|tok v].
    + by exists "", [].
    + by exists tok, v.
  - destruct IH as (t & v & ->); [done..|]. by exists t, v.
Qed.

Lemma prefix_app_r p s t :
  String.prefix p s = true → String.prefix p (s +:+ t) = true.
Proof.
  intros [r ->]%prefix_inv. rewrite string_app_assoc. apply prefix_app.
Qed.

Lemma join_tab_head f v : ∃ t, join_tab (f :: v) = f +:+ t.
Proof.
  destruct v as [|g v].
  - exists "". by rewrite join_tab_singleton, string_app_nil_r.
  - eexists. apply join_tab_cons.
Qed.

Lemma starts_with_hash_join f v :
  starts_with_hash (join_tab (f :: v)) = starts_with_hash f.
Proof.
  destruct v as [|g v]; [done|]. rewrite join_tab_cons. by destruct f.
Qed.

Lemma split_fields_head_hash line f v :
  split_fields line = f :: v →
  starts_with_hash (join_tab (f :: v)) = starts_with_hash line.
Proof.
  unfold split_fields. destruct line as [|c s]; [done|].
  rewrite getlines_cons. destruct (Ascii.eqb_spec c TAB) as [->|Hc].
  - intros [= <- <-].
    destruct (getlines TAB s); [done|by rewrite join_tab_cons].
  - intros Hsplit. rewrite starts_with_hash_join.
    destruct (getlines TAB s); by injection Hsplit as <- <-.
Qed.

Lemma sample_field_seq fields a n :
  a + n ≤ length fields →
  sample_field fields <$> seq a n = take n (drop a fields).
Proof.
  intros Hlen. apply list_eq. intros i.
  rewrite list_lookup_fmap. destruct (decide (i < n)) as [Hi|Hi].
  - rewrite lookup_seq_lt, lookup_take_lt, lookup_drop by done. simpl.
    unfold sample_field.
    destruct (Nat.ltb_spec (a + i) (length fields)); [|lia].
    rewrite nth_lookup.
    destruct (lookup_lt_is_Some_2 fields (a + i)) as [f ->]; done.
  - rewrite lookup_seq_ge, lookup_take_ge by lia. done.
Qed.

(** The header, filtered again. *)
Lemma process_header_again header_line format_idx indices header' :
  "" ∉ targets →
  let fields := split_fields header_line in
  fields !! format_idx = Some "FORMAT" →
  (∀ j, j < format_idx → fields !! j ≠ Some "FORMAT") →
  process_header targets [] header_line = Ok (indices, header') →
  indices ≠ [] ∧
  (∃ f v, fields = f :: v ∧ ∃ t, header' = f +:+ t) ∧
  process_header targets [] header' =
    Ok (seq (S format_idx) (length indices), header').
Proof.
  intros Hne fields Hfmt Hfirst Hrun.
  assert (find_format fields 0 = Some format_idx) as Hfind.
  { apply find_format_Some. by exists format_idx. }
  destruct (process_header_found targets [] header_line format_idx Hfind)
    as (found & Hrun' & Hpos & _).
  fold fields in Hrun', Hpos. rewrite Hrun in Hrun'. simpl in Hrun'.
  destruct found as [|p found]; [done|]. injection Hrun' as -> ->.
  set (names := filter (.∈ targets) (drop (S format_idx) fields)) in *.
  set (fields' := take (S format_idx) fields ++ names).
  assert (length names = length (p :: found)) as Hlen
    by (symmetry; by eapply Forall2_length).
  assert (Forall (.∈ targets) names) as Hnames.
  { apply Forall_forall. by intros f [? _]%list_elem_of_filter. }
  assert (length (take (S format_idx) fields) = S format_idx) as Htake.
  { rewrite length_take. apply lookup_lt_Some in Hfmt. lia. }
  assert (split_fields (join_tab fields') = fields') as Hsplit.
  { apply split_join.
    - apply Forall_app. split.
      + apply Forall_take, split_fields_no_tab.
      + apply Forall_forall. intros g [_ Hg]%list_elem_of_filter. revert g Hg.
        apply Forall_forall, Forall_drop, split_fields_no_tab.
    - unfold fields'. rewrite last_app.
      destruct (last names) as [f|] eqn:Hlast.
      + intros [= ->]. apply last_Some_elem_of in Hlast.
        rewrite Forall_forall in Hnames. by apply Hne, Hnames.
      + apply last_None in Hlast. rewrite Hlast in Hlen. done. }
  split_and!; [done| |].
  - destruct fields as [|f v] eqn:Hf; [done|]. exists f, v. split; [done|].
    unfold fields'. simpl. apply join_tab_head.
  - unfold process_header. rewrite Hsplit.
    assert (find_format fields' 0 = Some format_idx) as ->.
    { apply find_format_Some. exists format_idx. split_and!; [done| |].
      - unfold fields'. rewrite lookup_app_l by lia.
        by rewrite lookup_take_lt by lia.
      - intros j Hj. unfold fields'. rewrite lookup_app_l by lia.
        rewrite lookup_take_lt by lia. by apply Hfirst. }
    replace (format_idx + 1) with (S format_idx) by lia.
    unfold fields' at 1 2.
    rewrite take_app_length', drop_app_length' by done.
    rewrite scan_samples_all by done. simpl app at 1.
    rewrite Hlen. done.
Qed.

(** A record projected with the empty map (one that came before the
    header) is reproduced by a second projection with the empty map. *)
Lemma process_data_line_nil_again line :
  line ≠ "" → starts_with_hash line = false →
  process_line targets [] (process_data_line [] line) =
    Ok ([], process_data_line [] line).
Proof.
  intros Hne Hh.
  destruct (decide (length (split_fields line) < 9)) as [Hshort|Hlong].
  { rewrite process_data_line_short by done.
    rewrite process_line_data by done. by rewrite process_data_line_short. }
  set (fields := split_fields line) in *.
  assert (process_data_line [] line = join_tab (take 9 fields)) as ->.
  { rewrite process_data_line_long by (fold fields; lia).
    fold fields. simpl. by rewrite app_nil_r. }
  assert (length (take 9 fields) = 9) as Htake by (rewrite length_take; lia).
  assert (Forall (λ f, count_tabs f = 0) (take 9 fields)) as Htabs
    by apply Forall_take, split_fields_no_tab.
  rewrite process_line_data; first last.
  - destruct fields as [|f0 v0] eqn:Hf; [simpl in Hlong; lia|].
    change (take 9 (f0 :: v0)) with (f0 :: take 8 v0).
    rewrite starts_with_hash_join.
    by rewrite <- Hh, <- (split_fields_head_hash line f0 v0 Hf),
      starts_with_hash_join.
  - intros E. pose proof (count_tabs_join _ Htabs) as Hc.
    rewrite E, Htake in Hc. simpl in Hc. lia.
  - f_equal. f_equal.
    destruct (decide (last (take 9 fields) = Some "")) as [Hlast|Hlast].
    + apply last_Some in Hlast as [v Hv]. rewrite Hv in *.
      rewrite length_app in Htake. simpl in Htake.
      apply Forall_app in Htabs as [Htabs _].
      apply process_data_line_short.
      rewrite split_join_trailing by done. lia.
    + rewrite process_data_line_long by (rewrite split_join by done; lia).
      rewrite split_join by done. simpl. rewrite app_nil_r.
      by rewrite take_take, Nat.min_id.
Qed.
End refilter.

(** One line at a time: the header resolves to itself on a second pass,
    comment lines and empty lines stay as they are, and a projected record
    is reproduced when the record is short, or when FORMAT is the ninth
    header field and the last projected field is not empty. *)
Lemma refilter_line (sample_file : string) (file : option string)
    (targets : gset string) (header_line : string) (format_idx : nat)
    (indices : list nat) (header' : string) :
  load_samples sample_file file = Ok targets →
  String.prefix "#CHROM" header_line = true →
  split_fields header_line !! format_idx = Some "FORMAT" →
  (∀ j, j < format_idx → split_fields header_line !! j ≠ Some "FORMAT") →
  process_line targets [] header_line = Ok (indices, header') →
  let indices' := seq (S format_idx) (length indices) in
  process_line targets [] header' = Ok (indices', header') ∧
  (∀ line,
     (line = "" ∨ starts_with_hash line = true) →
     String.prefix "#CHROM" line = false →
     process_line targets indices line = Ok (indices, line) ∧
     process_line targets indices' line = Ok (indices', line)) ∧
  (∀ line,
     line ≠ "" → starts_with_hash line = false →
     (9 ≤ length (split_fields line) →
      format_idx = 8 ∧
      ∀ idx, last indices = Some idx →
             sample_field (split_fields line) idx ≠ "") →
     process_line targets indices line =
       Ok (indices, process_data_line indices line) ∧
     process_line targets indices' (process_data_line indices line) =
       Ok (indices', process_data_line indices line)).
Proof.
  intros Hload Hprefix Hfmt Hfirst Hrun indices'.
  pose proof (load_samples_no_empty_name _ _ _ Hload) as Hne.
  rewrite process_line_header in Hrun by done.
  destruct (process_header_again targets header_line format_idx indices header'
              Hne Hfmt Hfirst Hrun) as (Hidx & (f & v & Hfields & t & Hhd) & Hagain).
  split_and!.
  - rewrite process_line_header; [done|].
    destruct (prefix_inv _ _ Hprefix) as [s' Hs'].
    destruct (split_fields_prefix "#CHROM" s') as (t' & v' & Hsp); [done..|].
    rewrite <- Hs', Hfields in Hsp. injection Hsp as -> ->.
    rewrite Hhd. apply prefix_app_r, prefix_app.
  - intros line [->|Hh] Hp; [done|].
    by rewrite !process_line_comment.
  - intros line Hline Hh Hlong.
    split; [by apply process_line_data|].
    destruct (decide (length (split_fields line) < 9)) as [Hshort|Hlen].
    { rewrite process_data_line_short by done.
      rewrite process_line_data by done.
      by rewrite process_data_line_short. }
    destruct Hlong as [-> Hlast]; [lia|].
    set (fields := split_fields line) in *.
    set (out := take 9 fields ++ (sample_field fields <$> indices)).
    assert (process_data_line indices line = join_tab out) as ->.
    { apply process_data_line_long. fold fields. lia. }
    assert (length (take 9 fields) = 9) as Htake by (rewrite length_take; lia).
    assert (length out = 9 + length indices) as Hout.
    { unfold out. by rewrite length_app, length_fmap, Htake. }
    assert (Forall (λ f, count_tabs f = 0) out) as Htabs.
    { unfold out. apply Forall_app. split.
      - apply Forall_take, split_fields_no_tab.
      - apply Forall_fmap, Forall_true. intros idx. simpl.
        apply sample_field_no_tab, split_fields_no_tab. }
    assert (split_fields (join_tab out) = out) as Hsplit.
    { apply split_join; [done|]. unfold out. rewrite last_app, fmap_last.
      destruct (last indices) as [idx|] eqn:Hl; simpl.
      - intros [= E]. by apply (Hlast idx).
      - by apply last_None in Hl. }
    assert (9 ≤ length (split_fields (join_tab out))) by (rewrite Hsplit; lia).
    rewrite process_line_data; first last.
    + destruct fields as [|f0 v0] eqn:Hf; [simpl in Hlen; lia|].
      unfold out. change (take 9 (f0 :: v0)) with (f0 :: take 8 v0).
      rewrite <- app_comm_cons, starts_with_hash_join.
      by rewrite <- Hh, <- (split_fields_head_hash line f0 v0 Hf),
        starts_with_hash_join.
    + intros E. pose proof (count_tabs_join out Htabs) as Hc.
      rewrite E, Hout in Hc. simpl in Hc. lia.
    + f_equal. f_equal. rewrite process_data_line_long by done.
      rewrite Hsplit. f_equal. unfold indices'.
      rewrite sample_field_seq by lia.
      rewrite (take_ge (drop 9 out)) by (rewrite length_drop; lia).
      apply take_drop.
Qed.

(** * The threads *)

Section pipeline.
Implicit Types (s : state) (a : action) (ws : list worker) (w : worker).

Lemma run_reachable schedule s s' :
  run schedule s = Some s' → reachable s s'.
Proof.
  revert s. induction schedule as [|a schedule IH]; intros s; simpl.
  - intros [= ->]. apply rtc_refl.
  - destruct (do_action a s) as [s1|] eqn:Ha; [|done]. intros Hrun.
    eapply rtc_l; [by exists a|by apply IH].
Qed.

Lemma forallb_is_exited ws :
  forallb is_exited ws = true ↔ Forall (λ w, w = Exited) ws.
Proof.
  induction ws as [|w ws IH]; simpl; [by split|].
  rewrite Forall_cons, <- IH.
  destruct w; simpl; split; try done; try (by intros [? ?]); by intros ?; split.
Qed.

Lemma sum_list_insert (f : worker → nat) ws i w w' :
  ws !! i = Some w →
  sum_list (f <$> <[ i := w' ]> ws) + f w = sum_list (f <$> ws) + f w'.
Proof.
  revert i. induction ws as [|w0 ws IH]; intros [|i] Hi; simplify_eq/=.
  - lia.
  - specialize (IH i Hi). lia.
Qed.

Lemma elem_of_insert_Exited ws i w :
  w ≠ Exited → Exited ∈ <[ i := w ]> ws → Exited ∈ ws.
Proof.
  intros Hw [j Hj]%list_elem_of_lookup.
  apply list_lookup_insert_Some in Hj as [(? & ? & ?)|[_ Hj]]; [congruence|].
  by eapply list_elem_of_lookup_2.
Qed.

Lemma in_flight_replicate n : sum_list (busy <$> replicate n Waiting) = 0.
Proof. induction n as [|n IH]; [done|]. simpl. apply IH. Qed.

Lemma Forall_Exited_lookup ws i w :
  Forall (λ w, w = Exited) ws → ws !! i = Some w → w = Exited.
Proof. intros Hall Hi. by eapply (Forall_lookup_1 _ _ _ _ Hall). Qed.
End pipeline.

(** Inversion of one transition: the action, its guard and the state it
    leads to. *)
Ltac invert_action H :=
  match type of H with
  | do_action ?a ?s = Some ?s' =>
      destruct s as [ts si inp iq fr ws oq lp fp out wd term];
      destruct a; cbn [do_action] in H;
      destruct term; try discriminate H;
      repeat (case_match; try discriminate H);
      injection H as <-;
      repeat match goal with
        | E : (_ <? _) = true |- _ => apply Nat.ltb_lt in E
        | E : (_ && _)%bool = true |- _ => apply andb_true_iff in E as [? ?]
        | E : negb _ = true |- _ => apply negb_true_iff in E
        | E : forallb is_exited _ = true |- _ => apply forallb_is_exited in E
        end;
      simplify_eq
  end.

(** A worker that still acts has not exited, so the main thread has not
    yet raised [finished_processing]. *)
Ltac worker_alive :=
  match goal with
  | Hall : Forall (λ w, w = Exited) ?ws, Hw : ?ws !! _ = Some _ |- _ =>
      by pose proof (Forall_Exited_lookup _ _ _ Hall Hw)
  end.

Section invariants.
Context (targets : gset string) (num_threads : nat) (lines : list string).
Implicit Types (s : state) (a : action).

Lemma wf_start : wf_state targets num_threads lines (start targets num_threads lines).
Proof.
  unfold wf_state, start, in_flight. simpl. split_and!; try done.
  - by rewrite length_replicate.
  - lia.
  - lia.
  - by intros [? _]%elem_of_replicate.
  - exists []. split; [done|]. by rewrite in_flight_replicate.
Qed.

Lemma wf_step s s' a :
  wf_state targets num_threads lines s →
  do_action a s = Some s' →
  wf_state targets num_threads lines s'.
Proof.
  intros (Hts & Hn & HqA & HqB & Hfr & Hex & Hfp & Hwd & (popped & Hl & Hc) & Hlp) Ha.
  invert_action Ha; unfold wf_state, in_flight in *; simpl in *.
  - (* ReaderPush *)
    split_and!; try done.
    + rewrite length_app. simpl. lia.
    + intros [? _]%Hex. done.
    + exists popped. by rewrite <- app_assoc.
  - (* ReaderFinish *)
    split_and!; try done.
    + intros Hin. split; [done|]. by apply Hex.
    + intros [? ?]%Hfp. done.
    + by exists popped.
  - (* WorkerPop *)
    split_and!; try done.
    + by rewrite length_insert.
    + simpl in HqA. lia.
    + intros [? ?]%elem_of_insert_Exited%Hex; done.
    + intros [? ?]%Hfp. worker_alive.
    + exists (popped ++ [s]). split; [by rewrite <- app_assoc|].
      rewrite length_app. simpl.
      pose proof (sum_list_insert busy ws i Waiting (Popped s)) as Hs.
      simpl in Hs. specialize (Hs ltac:(done)). lia.
  - (* WorkerExit *)
    split_and!; try done.
    + by rewrite length_insert.
    + intros [? ?]%Hfp. worker_alive.
    + exists popped. split; [done|].
      pose proof (sum_list_insert busy ws i Waiting Exited) as Hs.
      simpl in Hs. specialize (Hs ltac:(done)). lia.
  - (* WorkerProcess, processed *)
    split_and!; try done.
    + by rewrite length_insert.
    + intros [? ?]%elem_of_insert_Exited%Hex; done.
    + intros [? ?]%Hfp. worker_alive.
    + exists popped. split; [done|].
      match goal with Hw : ws !! i = Some (Popped ?l) |- _ =>
        pose proof (sum_list_insert busy ws i (Popped l) (Processed s) Hw) as Hs
      end.
      simpl in Hs. lia.
  - (* WorkerProcess, exception *)
    split_and!; try done. by exists popped.
  - (* WorkerPush *)
    split_and!; try done.
    + by rewrite length_insert.
    + rewrite length_app. simpl. lia.
    + intros [? ?]%elem_of_insert_Exited%Hex; done.
    + intros [? ?]%Hfp. worker_alive.
    + intros [[_ ?]%Hfp _]%Hwd. worker_alive.
    + exists popped. split; [done|].
      pose proof (sum_list_insert busy ws i (Processed line) Waiting) as Hs.
      simpl in Hs. specialize (Hs ltac:(done)). rewrite length_app. simpl. lia.
    + rewrite length_app. simpl. lia.
  - (* MainSignal *)
    split_and!; try done.
    + intros [? _]%Hwd. done.
    + by exists popped.
  - (* WriterWrite *)
    split_and!; try done.
    + simpl in HqB. lia.
    + exists popped. split; [done|]. rewrite length_app. simpl in *. lia.
    + rewrite length_app. simpl. lia.
  - (* WriterExit *)
    split_and!; try done. by exists popped.
Qed.

Lemma wf_reachable s :
  reachable (start targets num_threads lines) s →
  wf_state targets num_threads lines s.
Proof.
  revert s. apply (rtc_ind_r (wf_state targets num_threads lines)).
  - apply wf_start.
  - intros s1 s2 _ [a Ha] IH. by eapply wf_step.
Qed.
End invariants.

Section progress.
Context (targets : gset string) (num_threads : nat) (lines : list string).
Implicit Types (s : state) (a : action).

(** Every transition uses up some of the work that is left. *)
Lemma measure_step s s' a : do_action a s = Some s' → measure s' < measure s.
Proof.
  intros Ha. invert_action Ha; unfold measure; simpl;
    rewrite ?length_app; simpl;
    try match goal with
      | Hw : ?l !! ?i = Some ?w |- context [<[ ?i := ?w' ]> ?l] =>
          pose proof (sum_list_insert weight l i w w' Hw) as Hs; simpl in Hs
      end;
    lia.
Qed.

(** Unless the process has been terminated, some thread can act as long
    as the writer has not left its loop. *)
Lemma wf_progress s :
  0 < num_threads →
  wf_state targets num_threads lines s →
  terminated s = None → writer_done s = false →
  ∃ a s', do_action a s = Some s'.
Proof.
  intros Hpos (_ & Hn & _ & _ & _ & Hex & _ & _ & _ & _) Hterm Hwd.
  destruct s as [ts si inp iq fr ws oq lp fp out wd term].
  simpl in *. subst term wd.
  destruct (decide (Forall (λ w, w = Exited) ws)) as [Hall|Hsome].
  - assert (fr = true ∧ iq = []) as [-> ->].
    { apply Hex. destruct ws as [|w ws]; [simpl in Hn; lia|].
      inversion_clear Hall as [|?? -> _]. left. }
    apply forallb_is_exited in Hall.
    destruct fp.
    + destruct oq as [|line oq].
      * by exists WriterExit; eexists.
      * by exists WriterWrite; eexists.
    + exists MainSignal. eexists. cbn [do_action]. by rewrite Hall.
  - apply not_Forall_Exists in Hsome; [|apply _].
    apply Exists_exists in Hsome as (w & [i Hi]%list_elem_of_lookup & Hw).
    destruct w as [|line|line|]; [| | |by destruct Hw].
    + destruct iq as [|line iq].
      * destruct fr.
        -- exists (WorkerExit i). eexists. cbn [do_action]. by rewrite Hi.
        -- destruct inp as [|line inp].
           ++ by exists ReaderFinish; eexists.
           ++ by exists ReaderPush; eexists.
      * exists (WorkerPop i). eexists. cbn [do_action]. by rewrite Hi.
    + exists (WorkerProcess i). cbn [do_action]. rewrite Hi.
      destruct (process_line ts si line) as [[si' out']|e]; by eexists.
    + destruct (Nat.ltb_spec (length oq) MAX_QUEUE_SIZE) as [Hlt|Hge].
      * exists (WorkerPush i). eexists. cbn [do_action]. rewrite Hi.
        apply Nat.ltb_lt in Hlt. by rewrite ?Hlt.
      * destruct oq as [|line' oq]; [unfold MAX_QUEUE_SIZE in Hge; simpl in Hge; lia|].
        by exists WriterWrite; eexists.
Qed.

(** Hence every run comes to an end: the writer leaves its loop or the
    process is terminated. *)
Lemma run_ends s :
  0 < num_threads →
  reachable (start targets num_threads lines) s →
  ∃ s', reachable s s' ∧
        (writer_done s' = true ∨ is_Some (terminated s')).
Proof.
  intros Hpos. remember (measure s) as m eqn:Hm. revert s Hm.
  induction m as [m IH] using lt_wf_ind. intros s -> Hreach.
  destruct (terminated s) as [e|] eqn:Hterm.
  { exists s. split; [apply rtc_refl|]. right. by rewrite Hterm. }
  destruct (writer_done s) eqn:Hwd.
  { exists s. split; [apply rtc_refl|]. by left. }
  destruct (wf_progress s Hpos (wf_reachable _ _ _ _ Hreach) Hterm Hwd)
    as (a & s1 & Ha).
  destruct (IH (measure s1) (measure_step _ _ _ Ha) s1 eq_refl) as (s' & Hs' & Hend).
  { eapply rtc_r; [done|by exists a]. }
  exists s'. split; [|done]. eapply rtc_l; [by exists a|done].
Qed.
End progress.


(** * One worker: the output is the input processed in order *)

Section single_worker.
Context (targets : gset string) (lines : list string).
Implicit Types (s : state) (a : action).

Lemma in_order_start : in_order targets lines (start targets 1 lines).
Proof.
  unfold in_order, start, held_raw, held_processed. simpl.
  by destruct (process_lines targets [] lines) as [[indices rest]|e].
Qed.

Lemma in_order_step s s' a :
  target_samples s = targets → length (workers s) = 1 →
  in_order targets lines s →
  do_action a s = Some s' →
  in_order targets lines s'.
Proof.
  intros Hts Hn Hinv Ha.
  invert_action Ha; unfold in_order, held_raw, held_processed in *;
    simpl in *;
    try (destruct ws as [|w0 [|? ?]]; try done;
         match goal with
         | Hw : [_] !! ?i = Some _ |- _ => destruct i; simplify_eq/=
         end).
  - (* ReaderPush *)
    by replace ((iq ++ [s]) ++ l) with (iq ++ s :: l)
      by (by rewrite <- app_assoc).
  - (* WorkerPop *) done.
  - (* WorkerExit *) done.
  - (* WorkerProcess, processed *)
    match goal with
    | E : process_line _ _ _ = _ |- _ => rewrite E in Hinv
    end.
    by destruct (process_lines _ _ _) as [[indices rest]|e].
  - (* WorkerProcess, exception *)
    match goal with
    | E : process_line _ _ _ = _ |- _ => by rewrite E in Hinv
    end.
  - (* WorkerPush *)
    destruct (process_lines _ _ _) as [[indices rest]|e]; [|done].
    by rewrite <- (app_assoc oq).
  - (* WriterWrite *)
    destruct (process_lines _ _ _) as [[indices rest]|e]; [|done].
    by rewrite <- (app_assoc out).
Qed.

Lemma in_order_reachable s :
  reachable (start targets 1 lines) s → in_order targets lines s.
Proof.
  intros Hreach.
  cut (wf_state targets 1 lines s ∧ in_order targets lines s); [tauto|].
  revert s Hreach.
  apply (rtc_ind_r (λ s, wf_state targets 1 lines s ∧ in_order targets lines s)).
  - split; [apply wf_start|apply in_order_start].
  - intros s1 s2 _ [a Ha] [Hwf Hinv].
    split; [by eapply wf_step|].
    destruct Hwf as (Hts & Hn & _). by eapply in_order_step.
Qed.

(** When the writer has left its loop nothing is left anywhere but in
    the output file. *)
Lemma completed_empty num_threads s :
  0 < num_threads →
  wf_state targets num_threads lines s → writer_done s = true →
  input s = [] ∧ input_queue s = [] ∧ output_queue s = [] ∧
  Forall (λ w, w = Exited) (workers s).
Proof.
  intros Hpos (_ & Hn & _ & _ & Hfr & Hex & Hfp & Hwd & _) [Hfp' HoB]%Hwd.
  destruct (Hfp Hfp') as [Hfr' Hall].
  assert (Exited ∈ workers s) as [_ HqA']%Hex.
  { destruct (workers s) as [|w ws]; [simpl in Hn; lia|].
    inversion_clear Hall as [|?? -> _]. left. }
  by specialize (Hfr Hfr').
Qed.

Lemma single_worker_completed s :
  reachable (start targets 1 lines) s → completed s →
  process_lines targets [] lines = Ok (sample_indices s, out_file s).
Proof.
  intros Hreach [Hwd Hterm].
  pose proof (in_order_reachable s Hreach) as Hinv.
  pose proof (wf_reachable _ _ _ _ Hreach) as Hwf.
  destruct (completed_empty 1 s) as (Hinp & HqA & HqB & Hall); [lia|done..|].
  unfold in_order, held_raw, held_processed in Hinv.
  rewrite Hterm, Hinp, HqA, HqB in Hinv.
  destruct Hwf as (_ & Hn & _).
  destruct (workers s) as [|w [|? ?]]; [done| |done].
  apply Forall_singleton in Hall as ->. simpl in Hinv.
  by rewrite app_nil_r in Hinv.
Qed.

Lemma single_worker_terminated s e :
  reachable (start targets 1 lines) s → terminated s = Some e →
  process_lines targets [] lines = Throw e.
Proof.
  intros Hinv%in_order_reachable Hterm. unfold in_order in Hinv.
  by rewrite Hterm in Hinv.
Qed.

Lemma single_worker_prefix s indices outs :
  reachable (start targets 1 lines) s →
  process_lines targets [] lines = Ok (indices, outs) →
  out_file s `prefix_of` outs.
Proof.
  intros Hinv%in_order_reachable Hseq. unfold in_order in Hinv.
  rewrite Hseq in Hinv. destruct (terminated s); [done|].
  destruct (process_lines _ _ _) as [[indices' rest]|e]; [|done].
  injection Hinv as -> ->. by eexists.
Qed.
End single_worker.

Section sequential.
Context (targets : gset string).
Implicit Types (indices : list nat) (lines : list string).

Lemma process_lines_app indices lines1 lines2 :
  process_lines targets indices (lines1 ++ lines2) =
    match process_lines targets indices lines1 with
    | Throw e => Throw e
    | Ok (indices1, out1) =>
        match process_lines targets indices1 lines2 with
        | Throw e => Throw e
        | Ok (indices2, out2) => Ok (indices2, out1 ++ out2)
        end
    end.
Proof.
  revert indices. induction lines1 as [|line lines1 IH]; intros indices; simpl.
  - by destruct (process_lines targets indices lines2) as [[? ?]|?].
  - destruct (process_line targets indices line) as [[indices' out]|e]; [|done].
    rewrite IH.
    destruct (process_lines targets indices' lines1) as [[indices1 out1]|e]; [|done].
    by destruct (process_lines targets indices1 lines2) as [[? ?]|?].
Qed.

(** Lines that do not begin with "#CHROM" leave [sample_indices] as it
    is. *)
Lemma process_line_plain indices line :
  String.prefix "#CHROM" line = false →
  ∃ out, process_line targets indices line = Ok (indices, out).
Proof.
  intros Hp. unfold process_line. rewrite Hp.
  destruct (_ || _)%bool; eauto.
Qed.

Lemma process_lines_plain indices lines :
  Forall (λ line, String.prefix "#CHROM" line = false) lines →
  ∃ outs,
    process_lines targets indices lines = Ok (indices, outs) ∧
    Forall2 (λ line out, process_line targets indices line = Ok (indices, out))
      lines outs.
Proof.
  induction 1 as [|line lines Hline _ (outs & IH & Hall)]; simpl.
  - by exists [].
  - destruct (process_line_plain indices line Hline) as [out Hout].
    rewrite Hout, IH. exists (out :: outs). split; [done|]. by constructor.
Qed.
End sequential.


(** C2, as the code has it.  With one worker and an input whose only line
    beginning with "#CHROM" is [header_line], the worker resolves the
    header when it reaches it: the lines before it are processed with the
    empty Column Index Map, the lines after it with the map the header
    gave, and the rewritten header is written at the place of the header,
    after the lines that precede it. *)
Theorem single_worker_resolves_header_in_line (targets : gset string)
    (before after : list string) (header_line : string)
    (indices : list nat) (header' : string) (s : state) :
  Forall (λ line, String.prefix "#CHROM" line = false) (before ++ after) →
  String.prefix "#CHROM" header_line = true →
  process_header targets [] header_line = Ok (indices, header') →
  reachable (start targets 1 (before ++ header_line :: after)) s →
  completed s →
  ∃ out_before out_after,
    out_file s = out_before ++ header' :: out_after ∧
    Forall2 (λ line out, process_line targets [] line = Ok ([], out))
      before out_before ∧
    Forall2 (λ line out, process_line targets indices line = Ok (indices, out))
      after out_after ∧
    sample_indices s = indices.
Proof.
  intros [Hbefore Hafter]%Forall_app Hprefix Hheader Hreach Hdone.
  pose proof (single_worker_completed _ _ _ Hreach Hdone) as Hseq.
  destruct (process_lines_plain targets [] before Hbefore) as (out_before & Hb & Hb2).
  destruct (process_lines_plain targets indices after Hafter) as (out_after & Ha & Ha2).
  rewrite process_lines_app, Hb in Hseq. simpl in Hseq.
  rewrite process_line_header, Hheader, Ha in Hseq by done.
  injection Hseq as <- <-. by exists out_before, out_after.
Qed.

Section refilter_file.
Context (targets : gset string).
Implicit Types (indices : list nat) (lines : list string).

Lemma process_lines_fixed indices lines :
  Forall (λ line, process_line targets indices line = Ok (indices, line)) lines →
  process_lines targets indices lines = Ok (indices, lines).
Proof.
  induction 1 as [|line lines Hline _ IH]; simpl; [done|].
  by rewrite Hline, IH.
Qed.
End refilter_file.


(** * The theorems at work on the small VCF file, and where the design
      document and the code part ways *)

(** Membership of a name in a list of names written out in full. *)
Ltac decide_names := refine (bool_decide_unpack _ _); vm_compute; exact I.


(** C2 fails: the header is resolved by an ordinary worker, so with two
    workers a record can be projected while [sample_indices] is still
    empty and loses its sample columns; and a line that precedes the
    header is written before the rewritten header. *)
Lemma record_projected_before_header_resolved :
  (∃ s s',
     reachable (start {[ "S2" ]} 2 [vcf_header; vcf_rec1]) s ∧
     workers s = [Popped vcf_header; Popped vcf_rec1] ∧
     sample_indices s = [] ∧
     do_action (WorkerProcess 1) s = Some s' ∧
     workers s' =
       [Popped vcf_header;
        Processed (tsv ["1"; "100"; "."; "G"; "T"; "50"; "PASS"; "."; "GT"])]) ∧
  (∃ s,
     reachable (start {[ "S2" ]} 2 [vcf_header; vcf_rec1]) s ∧
     completed s ∧
     out_file s =
       [vcf_header_S2; tsv ["1"; "100"; "."; "G"; "T"; "50"; "PASS"; "."; "GT"]]) ∧
  (∃ s,
     reachable (start {[ "S2" ]} 1 [vcf_meta; vcf_header]) s ∧
     completed s ∧
     out_file s = [vcf_meta; vcf_header_S2]).
Proof.
  split_and!.
  - eexists. eexists. split.
    { apply (run_reachable [ReaderPush; ReaderPush; WorkerPop 0; WorkerPop 1]).
      vm_compute. reflexivity. }
    split_and!; [reflexivity|reflexivity|vm_compute; reflexivity|reflexivity].
  - eexists. split.
    { apply (run_reachable racing_schedule). vm_compute. reflexivity. }
    split_and!; [split; reflexivity|by vm_compute].
  - eexists. split.
    { apply (run_reachable (one_at_a_time 0 ++ one_at_a_time 0 ++ finish 1)).
      vm_compute. reflexivity. }
    split_and!; [split; reflexivity|by vm_compute].
Qed.

(** C6 fails on a name with whitespace inside: the loader deletes it and
    stores the two halves joined, where stripping the ends would keep the
    name as it is. *)
Lemma load_samples_joins_words :
  load_samples "samples.txt" (Some (text ["NA 12878"])) = Ok {[ "NA12878" ]} ∧
  load_stripped (text ["NA 12878"]) = {[ "NA 12878" ]} ∧
  load_samples "samples.txt" (Some (text ["NA 12878"])) ≠
    Ok (load_stripped (text ["NA 12878"])).
Proof.
  assert (load_samples "samples.txt" (Some (text ["NA 12878"])) =
            Ok {[ "NA12878" ]}) as H1 by (by vm_compute).
  assert (load_stripped (text ["NA 12878"]) = {[ "NA 12878" ]}) as H2
    by (by vm_compute).
  split; [done|]. split; [done|]. rewrite H1, H2. by intros [= ?].
Qed.



(** ** The theorems on the small file *)


Lemma single_worker_resolves_header_in_line_witness :
  ∃ s,
    reachable (start {[ "S2" ]} 1 ([vcf_meta] ++ vcf_header :: [vcf_rec1])) s ∧
    completed s ∧
    ∃ out_before out_after,
      out_file s = out_before ++ vcf_header_S2 :: out_after ∧
      Forall2 (λ line out, process_line {[ "S2" ]} [] line = Ok ([], out))
        [vcf_meta] out_before ∧
      Forall2 (λ line out, process_line {[ "S2" ]} [10] line = Ok ([10], out))
        [vcf_rec1] out_after ∧
      sample_indices s = [10].
Proof.
  eexists. split.
  { apply (run_reachable
             (one_at_a_time 0 ++ one_at_a_time 0 ++ one_at_a_time 0 ++ finish 1)).
    vm_compute. reflexivity. }
  split; [split; reflexivity|].
  apply (single_worker_resolves_header_in_line {[ "S2" ]} [vcf_meta] [vcf_rec1]
           vcf_header [10] vcf_header_S2).
  - repeat constructor.
  - reflexivity.
  - vm_compute. reflexivity.
  - apply (run_reachable
             (one_at_a_time 0 ++ one_at_a_time 0 ++ one_at_a_time 0 ++ finish 1)).
    vm_compute. reflexivity.
  - split; reflexivity.
Defined.

Lemma process_data_line_projects_witness :
  length (split_fields (tsv ["1"; "100"; "."])) < 9 ∧
  process_data_line [10; 15] (tsv ["1"; "100"; "."]) = tsv ["1"; "100"; "."] ∧
  9 ≤ length (split_fields vcf_rec1) ∧
  process_data_line [10; 15] vcf_rec1 =
    tsv ["1"; "100"; "."; "G"; "T"; "50"; "PASS"; "."; "GT"; "0/1"; "."] ∧
  count_tabs (process_data_line [10; 15] vcf_rec1) + 1 = 9 + 2.
Proof.
  assert (length (split_fields (tsv ["1"; "100"; "."])) < 9) as Hshort
    by (vm_compute; lia).
  assert (9 ≤ length (split_fields vcf_rec1)) as Hlong by (vm_compute; lia).
  split; [exact Hshort|]. split.
  { exact (proj1 (process_data_line_projects [10; 15] (tsv ["1"; "100"; "."]))
             Hshort). }
  split; [exact Hlong|].
  destruct (proj2 (process_data_line_projects [10; 15] vcf_rec1) Hlong)
    as (Hout & _ & _ & _ & _ & Hcount).
  split; [|exact Hcount]. rewrite Hout. vm_compute. reflexivity.
Defined.

Lemma process_header_resolves_witness :
  split_fields vcf_header !! 8 = Some "FORMAT" ∧
  ∃ sample_indices,
    process_header {[ "S2" ]} [] vcf_header = Ok (sample_indices, vcf_header_S2) ∧
    sample_indices = [10] ∧
    count_tabs vcf_header_S2 + 1 = 9 + length sample_indices.
Proof.
  split; [reflexivity|].
  destruct (process_header_resolves {[ "S2" ]} vcf_header 8)
    as (sample_indices & Hrun & _ & _ & _ & _ & Hcount).
  - reflexivity.
  - intros j Hj. do 8 (destruct j as [|j]; [vm_compute; discriminate|]). lia.
  - exists "S2". split; [decide_names|by apply elem_of_singleton].
  - exists sample_indices. split; [exact Hrun|].
    assert (sample_indices = [10]) as ->.
    { assert (process_header {[ "S2" ]} [] vcf_header = Ok ([10], vcf_header_S2))
        as Hc by (vm_compute; reflexivity).
      rewrite Hrun in Hc. by inversion Hc. }
    split; [reflexivity|exact Hcount].
Defined.

Lemma boundary_failures_witness :
  (∃ e, VCFSampleFilter.filter "samples.txt" None 1 [vcf_header] = Throw e ∧
        kind_of e = ConfigError) ∧
  (∃ e, VCFSampleFilter.filter "samples.txt" (Some (text [" "; ""])) 1
          [vcf_header] = Throw e ∧
        kind_of e = ConfigError) ∧
  ("FORMAT" ∉ split_fields (tsv ["#CHROM"; "POS"; "S1"; "S2"])) ∧
  process_header {[ "S2" ]} [] (tsv ["#CHROM"; "POS"; "S1"; "S2"]) =
    Throw FormatColumnNotFound ∧
  split_fields vcf_header !! 8 = Some "FORMAT" ∧
  process_header {[ "S9" ]} [] vcf_header = Throw NoMatchingSamples.
Proof.
  destruct (boundary_failures "samples.txt" None 1 [vcf_header] {[ "S2" ]}
              (tsv ["#CHROM"; "POS"; "S1"; "S2"]) 0)
    as (Hopen & _ & Hformat & _).
  destruct (boundary_failures "samples.txt" (Some (text [" "; ""])) 1
              [vcf_header] {[ "S9" ]} vcf_header 8)
    as (Hblank & _ & _ & Hmatch & _).
  assert ("FORMAT" ∉ split_fields (tsv ["#CHROM"; "POS"; "S1"; "S2"])) as Hno
    by decide_names.
  split_and!.
  - apply Hopen. by left.
  - apply Hblank. right. eexists. split; [reflexivity|].
    intros line Hline.
    change (getlines NL (text [" "; ""])) with [" "; ""] in Hline.
    apply elem_of_cons in Hline as [->|Hline]; [reflexivity|].
    apply elem_of_cons in Hline as [->|Hline]; [reflexivity|].
    by apply elem_of_nil in Hline.
  - exact Hno.
  - exact (proj1 (Hformat Hno [])).
  - reflexivity.
  - apply Hmatch.
    + reflexivity.
    + intros j Hj. do 8 (destruct j as [|j]; [vm_compute; discriminate|]). lia.
    + intros f Hf.
      change (drop 9 (split_fields vcf_header)) with ["S1"; "S2"] in Hf.
      apply elem_of_cons in Hf as [->|Hf].
      { intros E%elem_of_singleton. discriminate E. }
      apply elem_of_cons in Hf as [->|Hf].
      { intros E%elem_of_singleton. discriminate E. }
      by apply elem_of_nil in Hf.
Defined.

Lemma load_samples_removes_all_whitespace_witness :
  load_samples "samples.txt" (Some (text [" NA 12878 "; ""; "HG002"])) =
    Ok {[ "NA12878"; "HG002" ]} ∧
  ("NA12878" ∈ ({[ "NA12878"; "HG002" ]} : gset string) ↔
   "NA12878" ≠ "" ∧
   ∃ line, line ∈ getlines NL (text [" NA 12878 "; ""; "HG002"]) ∧
           "NA12878" = remove_space (strip line)) ∧
  ("NA12878" ∈ ({[ "NA12878"; "HG002" ]} : gset string) →
   remove_space "NA12878" = "NA12878").
Proof.
  assert (load_samples "samples.txt" (Some (text [" NA 12878 "; ""; "HG002"])) =
            Ok {[ "NA12878"; "HG002" ]}) as Hload by (vm_compute; reflexivity).
  split; [exact Hload|].
  exact (load_samples_removes_all_whitespace "samples.txt"
           (text [" NA 12878 "; ""; "HG002"]) {[ "NA12878"; "HG002" ]} Hload
           "NA12878").
Defined.




(** * Further properties of the header resolver and the record projector *)

Section more_text.
Implicit Types (s line : string) (c d : ascii) (v : list string).

Lemma drop_final_cases d s :
  (drop_final d s = s ∧ ∀ s', s ≠ s' +:+ String d "") ∨
  s = drop_final d s +:+ String d "".
Proof.
  induction s as [|c s IH]; [left; split; [done|by intros [|??]]|].
  cbn [drop_final]. destruct s as [|c' s].
  - destruct (Ascii.eqb_spec c d) as [->|Hne]; [by right|].
    left. split; [done|]. intros [|c1 [|??]]; [|done..].
    rewrite string_app_nil_l. congruence.
  - destruct IH as [[IH Hno]|IH].
    + left. rewrite IH. split; [done|]. intros [|c1 s1]; [done|].
      rewrite string_app_cons. intros [= -> Hs]. by eapply Hno.
    + right. by rewrite string_app_cons, <- IH.
Qed.

Lemma join_tab_cons_char c tok v :
  join_tab (String c tok :: v) = String c (join_tab (tok :: v)).
Proof. destruct v as [|g v]; [done|]. by rewrite !join_tab_cons. Qed.

Lemma split_fields_nil line : split_fields line = [] → line = "".
Proof.
  unfold split_fields. destruct line as [|c s]; [done|].
  rewrite getlines_cons. destruct (Ascii.eqb c TAB); [done|].
  by destruct (getlines TAB s).
Qed.

(** Joining what the split gave: the line comes back, less one tab at
    its very end. *)
Lemma join_split_fields line :
  join_tab (split_fields line) = drop_final TAB line.
Proof.
  induction line as [|c s IH]; [done|].
  unfold split_fields in *. rewrite getlines_cons. cbn [drop_final].
  destruct (Ascii.eqb_spec c TAB) as [->|Hc].
  - destruct s as [|c' s]; [done|].
    destruct (getlines TAB (String c' s)) as [|g w] eqn:E.
    { by apply split_fields_nil in E. }
    by rewrite join_tab_cons, string_app_nil_l, IH.
  - destruct s as [|c' s]; [done|].
    destruct (getlines TAB (String c' s)) as [|g w] eqn:E.
    { by apply split_fields_nil in E. }
    by rewrite join_tab_cons_char, IH.
Qed.

Lemma contains_app c s1 s2 :
  contains c (s1 +:+ s2) = (contains c s1 || contains c s2)%bool.
Proof.
  induction s1 as [|c' s1 IH]; [done|].
  rewrite string_app_cons. simpl. by rewrite IH, orb_assoc.
Qed.

(** The fields of a line have no character the line does not have. *)
Lemma getlines_contains c d s :
  contains c s = false → Forall (λ tok, contains c tok = false) (getlines d s).
Proof.
  induction s as [|c' s IH]; [constructor|]. simpl.
  intros [Hc Hs]%orb_false_iff. specialize (IH Hs).
  rewrite getlines_cons. destruct (Ascii.eqb c' d).
  - by constructor.
  - destruct (getlines d s) as [|tok v].
    + repeat constructor. simpl. by rewrite Hc.
    + inversion_clear IH as [|?? Htok Hv]. constructor; [|done].
      simpl. by rewrite Hc.
Qed.

Lemma getlines_no_delimiter d s :
  Forall (λ tok, contains d tok = false) (getlines d s).
Proof.
  induction s as [|c s IH]; [constructor|].
  rewrite getlines_cons. destruct (Ascii.eqb c d) eqn:E.
  - by constructor.
  - destruct (getlines d s) as [|tok v].
    + repeat constructor. simpl. by rewrite E.
    + inversion_clear IH as [|?? Htok Hv]. constructor; [|done].
      simpl. by rewrite E.
Qed.

Lemma contains_join_tab c v :
  c ≠ TAB → Forall (λ f, contains c f = false) v →
  contains c (join_tab v) = false.
Proof.
  intros Hc. induction 1 as [|f v Hf _ IH]; [done|].
  destruct v as [|g v]; [by rewrite join_tab_singleton|].
  rewrite join_tab_cons, contains_app, Hf. cbn [contains]. rewrite IH.
  destruct (Ascii.eqb_spec TAB c) as [E|E]; [congruence|done].
Qed.

(** One line of a text file: up to its newline. *)
Lemma getlines_line d s rest :
  contains d s = false →
  getlines d (s +:+ String d rest) = s :: getlines d rest.
Proof.
  induction s as [|c s IH]; intros Hd.
  - by rewrite string_app_nil_l, getlines_cons, Ascii.eqb_refl.
  - simpl in Hd. apply orb_false_iff in Hd as [Hc Hs].
    by rewrite string_app_cons, getlines_cons, Hc, IH.
Qed.

Lemma getlines_text lines :
  Forall (λ line, contains NL line = false) lines →
  getlines NL (text lines) = lines.
Proof.
  induction 1 as [|line lines Hline _ IH]; [done|].
  simpl. by rewrite getlines_line, IH.
Qed.
End more_text.

(** X1. Splitting a line on tabs and joining the fields again gives the
    line back, except that a tab at the very end of the line is lost; and
    the fields never contain a tab. *)
Theorem join_split_round_trip (line : string) :
  join_tab (split_fields line) = drop_final TAB line ∧
  ((drop_final TAB line = line ∧ ∀ s, line ≠ s +:+ String TAB "") ∨
   line = drop_final TAB line +:+ String TAB "") ∧
  Forall (λ f, contains TAB f = false) (split_fields line).
Proof.
  split_and!.
  - apply join_split_fields.
  - apply drop_final_cases.
  - apply getlines_no_delimiter.
Qed.

Section more_resolver.
Context (targets : gset string).
Implicit Types (indices : list nat) (line : string).

(** The scan adds the same positions and fields to whatever has been
    collected before. *)
Lemma scan_samples_acc rest i indices output_fields :
  scan_samples targets rest i indices output_fields =
    (indices ++ (scan_samples targets rest i [] []).1,
     output_fields ++ (scan_samples targets rest i [] []).2).
Proof.
  revert i indices output_fields.
  induction rest as [|f rest IH]; intros i indices output_fields; simpl.
  - by rewrite !app_nil_r.
  - destruct (decide (f ∈ targets)); [|apply IH].
    rewrite (IH (S i) (indices ++ [i]) (output_fields ++ [f])).
    rewrite (IH (S i) [i] [f]). simpl. by rewrite <- !app_assoc.
Qed.

(** [process_header] on an object that already holds indices: the new
    matches are appended, and only an object without any index can throw
    for want of a match. *)
Lemma process_header_prior indices header_line :
  process_header targets indices header_line =
    match find_format (split_fields header_line) 0 with
    | None => Throw FormatColumnNotFound
    | Some format_idx =>
        let fields := split_fields header_line in
        let found :=
          (scan_samples targets (drop (S format_idx) fields)
             (S format_idx) [] []).1 in
        match indices ++ found with
        | [] => Throw NoMatchingSamples
        | _ :: _ =>
            Ok (indices ++ found,
                join_tab (take (S format_idx) fields ++
                          filter (.∈ targets) (drop (S format_idx) fields)))
        end
    end.
Proof.
  unfold process_header.
  destruct (find_format (split_fields header_line) 0) as [format_idx|]; [|done].
  replace (format_idx + 1) with (S format_idx) by lia.
  rewrite scan_samples_acc. cbv zeta.
  destruct (scan_samples_spec targets
              (drop (S format_idx) (split_fields header_line)) (S format_idx) [] [])
    as (found & E & _).
  rewrite E. simpl. done.
Qed.
End more_resolver.

(** X2. [process_header] never forgets what [sample_indices] held when it
    was called: the matches of the header are appended to it, the rewritten
    header does not depend on it, and when it is not empty a header without
    any requested sample is accepted instead of raising the no-match
    exception.  A missing FORMAT field is an error whatever it holds. *)
Theorem process_header_appends_to_earlier_indices (targets : gset string)
    (indices : list nat) (header_line : string) :
  (∀ found header',
     process_header targets [] header_line = Ok (found, header') →
     process_header targets indices header_line =
       Ok (indices ++ found, header')) ∧
  (indices ≠ [] →
   process_header targets [] header_line = Throw NoMatchingSamples →
   ∃ header', process_header targets indices header_line =
                Ok (indices, header')) ∧
  (process_header targets [] header_line = Throw FormatColumnNotFound →
   process_header targets indices header_line = Throw FormatColumnNotFound) ∧
  (∀ indices' header',
     process_header targets indices header_line = Ok (indices', header') →
     indices `prefix_of` indices').
Proof.
  rewrite (process_header_prior targets indices),
    (process_header_prior targets []).
  destruct (find_format (split_fields header_line) 0) as [format_idx|];
    [|by split_and!].
  cbv zeta.
  destruct (scan_samples targets _ _ [] []).1 as [|i found] eqn:E; simpl.
  - rewrite app_nil_r. split_and!; [done| |done|].
    + intros Hne _. destruct indices; [done|]. by eexists.
    + intros indices' header'. destruct indices; [done|].
      intros [= <- _]. done.
  - split_and!; [|done|done|].
    + intros ?? [= <- <-]. by destruct indices.
    + intros indices' header'.
      destruct (indices ++ i :: found) eqn:E'; [done|].
      intros [= <- _]. rewrite <- E'. by eexists.
Qed.

Lemma process_header_appends_to_earlier_indices_witness :
  process_header {[ "S2" ]} [10] vcf_header = Ok ([10; 10], vcf_header_S2) ∧
  (∃ header', process_header {[ "S9" ]} [10] vcf_header = Ok ([10], header')) ∧
  [10] `prefix_of` [10; 10].
Proof.
  split_and!.
  - apply (proj1 (process_header_appends_to_earlier_indices
                    {[ "S2" ]} [10] vcf_header) [10] vcf_header_S2).
    vm_compute. reflexivity.
  - apply (proj1 (proj2 (process_header_appends_to_earlier_indices
                           {[ "S9" ]} [10] vcf_header))).
    + discriminate.
    + vm_compute. reflexivity.
  - apply (proj2 (proj2 (proj2 (process_header_appends_to_earlier_indices
                                  {[ "S2" ]} [10] vcf_header)))
             [10; 10] vcf_header_S2).
    vm_compute. reflexivity.
Defined.

Section identity.
Context (targets : gset string).
Implicit Types (indices : list nat) (line : string).

Lemma process_header_all header_line format_idx :
  let fields := split_fields header_line in
  fields !! format_idx = Some "FORMAT" →
  (∀ j, j < format_idx → fields !! j ≠ Some "FORMAT") →
  S format_idx < length fields →
  Forall (.∈ targets) (drop (S format_idx) fields) →
  process_header targets [] header_line =
    Ok (seq (S format_idx) (length fields - S format_idx),
        drop_final TAB header_line).
Proof.
  intros fields Hfmt Hfirst Hlen Hall.
  assert (find_format fields 0 = Some format_idx) as Hfind.
  { apply find_format_Some. by exists format_idx. }
  unfold process_header. fold fields. rewrite Hfind.
  replace (format_idx + 1) with (S format_idx) by lia.
  rewrite scan_samples_all by done.
  rewrite take_drop, length_drop. simpl.
  destruct (seq (S format_idx) (length fields - S format_idx)) eqn:E.
  { apply (f_equal length) in E. rewrite length_seq in E. simpl in E. lia. }
  by rewrite <- join_split_fields.
Qed.

Lemma process_data_line_all line :
  9 ≤ length (split_fields line) →
  process_data_line (seq 9 (length (split_fields line) - 9)) line =
    drop_final TAB line.
Proof.
  intros Hlen. rewrite process_data_line_long by done.
  rewrite sample_field_seq by lia.
  rewrite (take_ge (drop 9 _)) by (rewrite length_drop; lia).
  by rewrite take_drop, join_split_fields.
Qed.
End identity.

(** X3. Requesting every sample gives the file back.  Take a file whose
    lines before the header are comments or empty, whose header ends
    without a tab and has only requested names after FORMAT, and whose
    records of 9 fields or more are as wide as the header and end without
    a tab, FORMAT being the ninth header field if there is such a record.
    Processing it line after line returns every line unchanged. *)
Theorem requesting_every_sample_returns_the_file (targets : gset string)
    (before after : list string) (header_line : string) (format_idx : nat) :
  let fields := split_fields header_line in
  Forall (λ line, (line = "" ∨ starts_with_hash line = true) ∧
                  String.prefix "#CHROM" line = false) before →
  String.prefix "#CHROM" header_line = true →
  fields !! format_idx = Some "FORMAT" →
  (∀ j, j < format_idx → fields !! j ≠ Some "FORMAT") →
  S format_idx < length fields →
  Forall (.∈ targets) (drop (S format_idx) fields) →
  drop_final TAB header_line = header_line →
  Forall (λ line,
            String.prefix "#CHROM" line = false ∧
            (line ≠ "" → starts_with_hash line = false →
             9 ≤ length (split_fields line) →
             format_idx = 8 ∧
             length (split_fields line) = length fields ∧
             drop_final TAB line = line)) after →
  process_lines targets [] (before ++ header_line :: after) =
    Ok (seq (S format_idx) (length fields - S format_idx),
        before ++ header_line :: after).
Proof.
  intros fields Hbefore Hprefix Hfmt Hfirst Hlen Hall Hend Hafter.
  rewrite process_lines_app, (process_lines_fixed targets [] before).
  2:{ eapply Forall_impl; [done|]. intros line [[->|Hh] Hp]; [done|].
      by apply process_line_comment. }
  cbn [process_lines].
  rewrite process_line_header, (process_header_all targets _ format_idx), Hend
    by done.
  fold fields.
  rewrite (process_lines_fixed targets _ after); [done|].
  eapply Forall_impl; [done|]. intros line [Hp Hrec].
  destruct (decide (line = "")) as [->|Hne]; [done|].
  destruct (starts_with_hash line) eqn:Hh.
  { by apply process_line_comment. }
  rewrite process_line_data by done. f_equal. f_equal.
  destruct (decide (length (split_fields line) < 9)) as [Hshort|Hlong].
  { by apply process_data_line_short. }
  destruct (Hrec Hne eq_refl) as (-> & Hwide & Hline); [lia|].
  rewrite <- Hwide, process_data_line_all by lia. done.
Qed.

Lemma requesting_every_sample_returns_the_file_witness :
  process_lines {[ "S1"; "S2" ]} []
    ([vcf_meta] ++ vcf_header :: [vcf_rec1; ""; vcf_rec2]) =
    Ok (seq 9 (length (split_fields vcf_header) - 9),
        [vcf_meta] ++ vcf_header :: [vcf_rec1; ""; vcf_rec2]).
Proof.
  apply (requesting_every_sample_returns_the_file
           {[ "S1"; "S2" ]} [vcf_meta] [vcf_rec1; ""; vcf_rec2] vcf_header 8).
  - constructor; [split; [right; reflexivity|reflexivity]|constructor].
  - reflexivity.
  - reflexivity.
  - intros j Hj. do 8 (destruct j as [|j]; [vm_compute; discriminate|]). lia.
  - vm_compute. lia.
  - match goal with |- Forall _ ?l =>
      let l' := eval vm_compute in l in change l with l' end.
    repeat constructor.
  - reflexivity.
  - repeat (apply Forall_cons; split;
      [split; [reflexivity|];
       intros Hne _ _;
       first [by destruct Hne | split_and!; vm_compute; reflexivity]|]).
    constructor.
Defined.

(** X4. Projecting twice is projecting once through the composed map.  If
    a record of 9 fields or more is projected with [indices1], with a last
    projected field that is not empty, and the result is projected with
    [indices2], whose entries all lie inside the first result, the outcome
    is the projection of the record with the map that sends each entry [j]
    of [indices2] to [j] itself when it is one of the 9 leading positions
    and to the entry of [indices1] it points at otherwise. *)
Theorem process_data_line_composes (indices1 indices2 : list nat)
    (line : string) :
  let fields := split_fields line in
  9 ≤ length fields →
  last (take 9 fields ++ (sample_field fields <$> indices1)) ≠ Some "" →
  Forall (λ j, j < 9 + length indices1) indices2 →
  process_data_line indices2 (process_data_line indices1 line) =
    process_data_line
      ((λ j, if j <? 9 then j else nth (j - 9) indices1 0) <$> indices2) line.
Proof.
  intros fields Hlen Hlast Hin.
  set (out := take 9 fields ++ (sample_field fields <$> indices1)) in *.
  assert (length (take 9 fields) = 9) as Htake by (rewrite length_take; lia).
  assert (length out = 9 + length indices1) as Hout.
  { unfold out. by rewrite length_app, length_fmap, Htake. }
  assert (split_fields (join_tab out) = out) as Hsplit.
  { apply split_join; [|done]. unfold out. apply Forall_app. split.
    - apply Forall_take, split_fields_no_tab.
    - apply Forall_fmap, Forall_true. intros idx. simpl.
      apply sample_field_no_tab, split_fields_no_tab. }
  rewrite (process_data_line_long indices1) by done. fold fields. fold out.
  rewrite process_data_line_long by (rewrite Hsplit; lia).
  rewrite process_data_line_long by done. fold fields.
  rewrite Hsplit. f_equal. f_equal.
  - unfold out. rewrite take_app_le by lia. by rewrite take_take, Nat.min_id.
  - rewrite <- list_fmap_compose. apply Forall_fmap_ext.
    eapply Forall_impl; [done|]. intros j Hj. simpl. cbv beta in Hj.
    unfold sample_field at 1. rewrite Hout.
    destruct (Nat.ltb_spec j (9 + length indices1)); [|lia].
    rewrite nth_lookup. destruct (Nat.ltb_spec j 9) as [Hj9|Hj9].
    + unfold out. rewrite lookup_app_l by lia.
      rewrite lookup_take_lt by done. unfold sample_field.
      destruct (Nat.ltb_spec j (length fields)); [|lia].
      by rewrite nth_lookup.
    + unfold out. rewrite lookup_app_r by lia. rewrite Htake.
      rewrite list_lookup_fmap, nth_lookup.
      destruct (lookup_lt_is_Some_2 indices1 (j - 9)) as [idx ->]; [lia|done].
Qed.

Lemma process_data_line_composes_witness :
  process_data_line [10; 9; 3] (process_data_line [10; 9] vcf_rec1) =
    process_data_line
      ((λ j, if j <? 9 then j else nth (j - 9) [10; 9] 0) <$> [10; 9; 3])
      vcf_rec1.
Proof.
  apply (process_data_line_composes [10; 9] [10; 9; 3] vcf_rec1).
  - vm_compute. lia.
  - vm_compute. discriminate.
  - repeat constructor; simpl; lia.
Defined.

Section reload.
Implicit Types (names : list string) (name : string).

Lemma length_remove_space s :
  String.length (remove_space s) ≤ String.length s.
Proof.
  induction s as [|c s IH]; simpl; [done|].
  destruct (isspace c); simpl; lia.
Qed.

(** A name that [remove_space] leaves alone has no whitespace. *)
Lemma remove_space_fixed s c :
  remove_space s = s → isspace c = true → contains c s = false.
Proof.
  intros Hs Hc. induction s as [|c' s IH]; [done|]. simpl in *.
  destruct (isspace c') eqn:Hc'.
  - pose proof (length_remove_space s) as Hlen.
    rewrite Hs in Hlen. simpl in Hlen. lia.
  - injection Hs as Hs. rewrite (IH Hs).
    destruct (Ascii.eqb_spec c' c) as [->|]; [congruence|done].
Qed.

Lemma remove_space_idem s : remove_space (remove_space s) = remove_space s.
Proof.
  induction s as [|c s IH]; simpl; [done|].
  destruct (isspace c) eqn:Hc; [done|]. simpl. by rewrite Hc, IH.
Qed.

Lemma load_samples_text sample_file names :
  names ≠ [] →
  Forall (λ name, name ≠ "" ∧ remove_space name = name) names →
  load_samples sample_file (Some (text names)) = Ok (list_to_set names).
Proof.
  intros Hne Hnames. unfold load_samples.
  rewrite getlines_text.
  2:{ eapply Forall_impl; [done|]. intros name [_ Hname].
      by apply remove_space_fixed. }
  assert (foldl insert_sample ∅ names = list_to_set names) as ->.
  { apply set_eq. intros name.
    rewrite elem_of_foldl_insert_sample, elem_of_empty, elem_of_list_to_set.
    rewrite Forall_forall in Hnames. split.
    - intros [[]|(_ & line & Hline & ->)].
      destruct (Hnames line Hline) as [_ ->]. done.
    - intros Hname. right. destruct (Hnames name Hname) as [? Hfix].
      split; [done|]. by exists name. }
  rewrite decide_False; [done|].
  destruct names as [|name names]; [done|].
  intros E. assert (name ∈ (∅ : gset string)) as []%elem_of_empty.
  rewrite <- E. apply elem_of_list_to_set. left.
Qed.
End reload.

(** X5. A sample file that lists non-empty names without whitespace, one
    per line, loads as exactly the set of those names, in whatever order
    and however often they are listed; and so the names of a loaded target
    set, written one per line, load as that same set. *)
Theorem load_samples_reads_back_names (sample_file : string)
    (names : list string) :
  names ≠ [] →
  Forall (λ name, name ≠ "" ∧ remove_space name = name) names →
  load_samples sample_file (Some (text names)) = Ok (list_to_set names) ∧
  (∀ sample_file' file' target_samples,
     load_samples sample_file' file' = Ok target_samples →
     load_samples sample_file (Some (text (elements target_samples))) =
       Ok target_samples).
Proof.
  intros Hne Hnames. split; [by apply load_samples_text|].
  intros sample_file' file' target_samples Hload.
  destruct file' as [content|]; [|done].
  rewrite load_samples_text.
  - by rewrite list_to_set_elements_L.
  - intros E. apply elements_empty_inv in E. apply leibniz_equiv in E.
    subst target_samples. unfold load_samples in Hload.
    destruct (decide (foldl insert_sample ∅ (getlines NL content) = ∅));
      [done|]. by injection Hload.
  - apply Forall_forall. intros name Hname%elem_of_elements.
    apply (elem_of_load_samples _ _ _ _ Hload) in Hname
      as (Hne' & line & _ & ->).
    split; [done|]. apply remove_space_idem.
Qed.

Lemma load_samples_reads_back_names_witness :
  load_samples "samples.txt" (Some (text ["S2"; "S1"; "S2"])) =
    Ok (list_to_set ["S2"; "S1"; "S2"]) ∧
  (∀ sample_file' file' target_samples,
     load_samples sample_file' file' = Ok target_samples →
     load_samples "samples.txt" (Some (text (elements target_samples))) =
       Ok target_samples).
Proof.
  apply (load_samples_reads_back_names "samples.txt" ["S2"; "S1"; "S2"]).
  - discriminate.
  - repeat constructor; discriminate.
Defined.

(** * The readers and the writer *)

Section readers.
Implicit Types (s a b rest buf content : string) (c d : ascii).
Implicit Types (n len fuel : nat) (queue : list string).

Lemma string_length_app s1 s2 :
  String.length (s1 +:+ s2) = String.length s1 + String.length s2.
Proof.
  induction s1 as [|c s1 IH]; [done|].
  rewrite string_app_cons. simpl. by rewrite IH.
Qed.

Lemma contains_cons d c rest :
  contains d (String c rest) = (Ascii.eqb c d || contains d rest)%bool.
Proof. done. Qed.

(** A string either lacks the character [d] or has a first one. *)
Lemma string_cut d s :
  contains d s = false ∨
  ∃ a rest, s = a +:+ String d rest ∧ contains d a = false.
Proof.
  induction s as [|c s IH]; [by left|]. rewrite contains_cons.
  destruct (Ascii.eqb_spec c d) as [->|Hc].
  - right. by exists "", s.
  - destruct IH as [->|(a & rest & -> & Ha)]; [by left|].
    right. exists (String c a), rest. split; [done|].
    rewrite contains_cons, Ha.
    by destruct (Ascii.eqb_spec c d).
Qed.

Lemma getlines_single d s :
  contains d s = false → s ≠ "" → getlines d s = [s].
Proof.
  induction s as [|c s IH]; [done|]. rewrite contains_cons.
  intros [Hc Hs]%orb_false_iff _. rewrite getlines_cons, Hc.
  destruct s as [|c' s]; [done|]. by rewrite IH.
Qed.

(** Characters before the first delimiter go to the first token. *)
Lemma getlines_prepend d a s tok v :
  contains d a = false → getlines d s = tok :: v →
  getlines d (a +:+ s) = (a +:+ tok) :: v.
Proof.
  intros Ha Hs. induction a as [|c a IH]; [done|].
  rewrite contains_cons in Ha. apply orb_false_iff in Ha as [Hc Ha].
  by rewrite !string_app_cons, getlines_cons, Hc, (IH Ha).
Qed.

(** The characters of the lines, one line after the other. *)
Lemma concat_getlines_app d a s :
  contains d a = false →
  foldr String.append "" (getlines d (a +:+ s)) =
    a +:+ foldr String.append "" (getlines d s).
Proof.
  intros Ha. induction a as [|c a IH]; [done|].
  rewrite contains_cons in Ha. apply orb_false_iff in Ha as [Hc Ha].
  rewrite !string_app_cons, getlines_cons, Hc. specialize (IH Ha).
  destruct (getlines d (a +:+ s)) as [|tok v]; simpl in *.
  - by rewrite <- IH.
  - by rewrite <- IH.
Qed.

Lemma drop_final_fixed d s : contains d s = false → drop_final d s = s.
Proof.
  induction s as [|c s IH]; [done|]. rewrite contains_cons.
  intros [Hc Hs]%orb_false_iff. cbn [drop_final].
  destruct s as [|c' s]; [by rewrite Hc|]. by rewrite IH.
Qed.

Lemma drop_final_snoc d s : drop_final d (s +:+ String d "") = s.
Proof.
  induction s as [|c s IH].
  - rewrite string_app_nil_l. cbn [drop_final]. by rewrite Ascii.eqb_refl.
  - rewrite string_app_cons. cbn [drop_final].
    destruct s as [|c' s].
    + rewrite string_app_nil_l. cbn [drop_final]. by rewrite Ascii.eqb_refl.
    + rewrite string_app_cons in *. by rewrite IH.
Qed.

Lemma length_drop_final d s :
  String.length (drop_final d s) ≤ String.length s.
Proof.
  induction s as [|c s IH]; [done|]. cbn [drop_final].
  destruct s as [|c' s]; [destruct (Ascii.eqb c d); simpl; lia|].
  simpl in *. lia.
Qed.

Lemma c_str_fixed s : contains NUL s = false → c_str s = s.
Proof.
  induction s as [|c s IH]; [done|]. rewrite contains_cons.
  intros [Hc Hs]%orb_false_iff. cbn [c_str]. by rewrite Hc, IH.
Qed.

Lemma length_c_str s : String.length (c_str s) ≤ String.length s.
Proof.
  induction s as [|c s IH]; [done|]. cbn [c_str].
  destruct (Ascii.eqb c NUL); simpl; lia.
Qed.

(** ** One call of [gzgets] *)

Lemma gzgets_chars_app n s buf rest :
  gzgets_chars n s = (buf, rest) → s = buf +:+ rest.
Proof.
  revert s buf rest. induction n as [|n IH]; intros s buf rest;
    cbn [gzgets_chars].
  - by intros [= <- <-].
  - destruct s as [|c s]; [by intros [= <- <-]|].
    destruct (Ascii.eqb c NL).
    + by intros [= <- <-].
    + destruct (gzgets_chars n s) as [buf' rest'] eqn:E. intros [= <- <-].
      rewrite string_app_cons. f_equal. by apply IH.
Qed.

Lemma gzgets_chars_length n s buf rest :
  gzgets_chars n s = (buf, rest) → String.length buf ≤ n.
Proof.
  revert s buf rest. induction n as [|n IH]; intros s buf rest;
    cbn [gzgets_chars].
  - by intros [= <- <-].
  - destruct s as [|c s]; [intros [= <- <-]; simpl; lia|].
    destruct (Ascii.eqb c NL).
    + intros [= <- <-]. simpl. lia.
    + destruct (gzgets_chars n s) as [buf' rest'] eqn:E. intros [= <- <-].
      simpl. apply IH in E. lia.
Qed.

(** A call that may transfer a character takes one off the stream. *)
Lemma gzgets_chars_progress n s buf rest :
  0 < n → s ≠ "" → gzgets_chars n s = (buf, rest) →
  String.length rest < String.length s.
Proof.
  intros Hn Hs E. destruct n as [|n]; [lia|]. destruct s as [|c s]; [done|].
  cbn [gzgets_chars] in E. destruct (Ascii.eqb c NL).
  - injection E as <- <-. simpl. lia.
  - destruct (gzgets_chars n s) as [buf' rest'] eqn:E'. injection E as <- <-.
    apply gzgets_chars_app in E'. subst s.
    cbn [String.length]. rewrite string_length_app. lia.
Qed.

(** A line that fits the buffer is transferred with its newline. *)
Lemma gzgets_chars_line n a rest :
  contains NL a = false → String.length a < n →
  gzgets_chars n (a +:+ String NL rest) = (a +:+ String NL "", rest).
Proof.
  revert a. induction n as [|n IH]; intros a Ha Hlen; [lia|].
  destruct a as [|c a].
  - rewrite !string_app_nil_l. cbn [gzgets_chars]. by rewrite Ascii.eqb_refl.
  - rewrite contains_cons in Ha. apply orb_false_iff in Ha as [Hc Ha].
    rewrite !string_app_cons. cbn [gzgets_chars]. rewrite Hc.
    rewrite IH; [done|done|simpl in Hlen; lia].
Qed.

(** Without a newline the call ends where the stream or the buffer does. *)
Lemma gzgets_chars_short n a :
  contains NL a = false → String.length a ≤ n →
  gzgets_chars n a = (a, "").
Proof.
  revert a. induction n as [|n IH]; intros a Ha Hlen.
  - by destruct a; [|simpl in Hlen; lia].
  - destruct a as [|c a]; [done|].
    rewrite contains_cons in Ha. apply orb_false_iff in Ha as [Hc Ha].
    cbn [gzgets_chars]. rewrite Hc.
    rewrite IH; [done|done|simpl in Hlen; lia].
Qed.

Lemma gzgets_chars_full n a b :
  contains NL a = false → String.length a = n →
  gzgets_chars n (a +:+ b) = (a, b).
Proof.
  revert a. induction n as [|n IH]; intros a Ha Hlen.
  - by destruct a.
  - destruct a as [|c a]; [done|].
    rewrite contains_cons in Ha. apply orb_false_iff in Ha as [Hc Ha].
    rewrite string_app_cons. cbn [gzgets_chars]. rewrite Hc.
    rewrite IH; [done|done|simpl in Hlen; lia].
Qed.

(** What a call transfers has its only newline at its end. *)
Lemma gzgets_chars_newline n s buf rest :
  gzgets_chars n s = (buf, rest) →
  contains NL buf = false ∨
  ∃ a, buf = a +:+ String NL "" ∧ contains NL a = false.
Proof.
  revert s buf rest. induction n as [|n IH]; intros s buf rest;
    cbn [gzgets_chars].
  - intros [= <- <-]. by left.
  - destruct s as [|c s]; [intros [= <- <-]; by left|].
    destruct (Ascii.eqb c NL) eqn:Hc.
    + intros [= <- <-]. right. exists "". split; [|done].
      apply Ascii.eqb_eq in Hc as ->. done.
    + destruct (gzgets_chars n s) as [buf' rest'] eqn:E. intros [= <- <-].
      destruct (IH _ _ _ E) as [Hb|(a & -> & Ha)].
      * left. by rewrite contains_cons, Hc, Hb.
      * right. exists (String c a). split; [done|].
        by rewrite contains_cons, Hc, Ha.
Qed.

(** The line made of a buffer has no newline, whatever the buffer. *)
Lemma drop_final_c_str_gzgets n s :
  contains NL (drop_final NL (c_str (gzgets_chars n s).1)) = false.
Proof.
  revert s. induction n as [|n IH]; intros s; cbn [gzgets_chars]; [done|].
  destruct s as [|c s]; [done|].
  destruct (Ascii.eqb c NL) eqn:Hc.
  - apply Ascii.eqb_eq in Hc as ->. done.
  - specialize (IH s). destruct (gzgets_chars n s) as [buf rest].
    cbn [fst c_str] in *. destruct (Ascii.eqb c NUL); [done|].
    cbn [drop_final]. destruct (c_str buf) as [|c' buf'] eqn:E.
    + rewrite Hc. by rewrite contains_cons, Hc.
    + by rewrite contains_cons, Hc, IH.
Qed.

(** ** The loop of [read_gz_stream] *)

Lemma gzgets_loop_acc fuel len s queue :
  gzgets_loop fuel len s queue = queue ++ gzgets_loop fuel len s [].
Proof.
  revert s queue. induction fuel as [|fuel IH]; intros s queue;
    cbn [gzgets_loop]; [by rewrite app_nil_r|].
  destruct (gzgets len s) as [[buf rest]|]; [|by rewrite app_nil_r].
  rewrite IH, (IH _ ([] ++ _)). by rewrite app_assoc.
Qed.

Lemma gzgets_loop_fuel fuel1 fuel2 len s queue :
  2 ≤ len → String.length s < fuel1 → String.length s < fuel2 →
  gzgets_loop fuel1 len s queue = gzgets_loop fuel2 len s queue.
Proof.
  intros Hlen. revert fuel2 s queue.
  induction fuel1 as [|fuel1 IH]; intros fuel2 s queue H1 H2; [lia|].
  destruct fuel2 as [|fuel2]; [lia|]. cbn [gzgets_loop].
  destruct s as [|c s]; [done|]. cbn [gzgets].
  destruct (gzgets_chars (len - 1) (String c s)) as [buf rest] eqn:E.
  apply gzgets_chars_progress in E; [|lia|done].
  apply IH; lia.
Qed.

(** The loop, call by call. *)
Lemma gz_lines_step len s buf rest :
  2 ≤ len → s ≠ "" → gzgets_chars (len - 1) s = (buf, rest) →
  gz_lines len s = drop_final NL (c_str buf) :: gz_lines len rest.
Proof.
  intros Hlen Hs E. unfold gz_lines at 1. cbn [gzgets_loop].
  destruct s as [|c s]; [done|]. cbn [gzgets]. rewrite E.
  rewrite gzgets_loop_acc. cbn [app]. f_equal.
  apply gzgets_chars_progress in E; [|lia|done].
  unfold gz_lines. apply gzgets_loop_fuel; [done|simpl in *; lia|lia].
Qed.

Lemma gz_lines_getlines len content :
  2 ≤ len → contains NUL content = false →
  Forall (λ line, String.length line + 1 < len) (getlines NL content) →
  gz_lines len content = getlines NL content.
Proof.
  intros Hlen. remember (String.length content) as k eqn:Hk.
  revert content Hk. induction (lt_wf k) as [k _ IH].
  intros content -> Hnul Hshort.
  destruct (string_cut NL content) as [Hnl|(a & rest & -> & Ha)].
  - destruct (decide (content = "")) as [->|Hne]; [done|].
    rewrite getlines_single in * by done.
    inversion_clear Hshort as [|?? Hc _].
    rewrite (gz_lines_step len content content "") by
      first [done | apply gzgets_chars_short; [done|lia]].
    by rewrite c_str_fixed, drop_final_fixed.
  - rewrite getlines_line in * by done.
    inversion_clear Hshort as [|?? Hc Hrest].
    rewrite contains_app, contains_cons in Hnul.
    apply orb_false_iff in Hnul as [Hnul_a [_ Hnul_r]%orb_false_iff].
    rewrite (gz_lines_step len _ (a +:+ String NL "") rest).
    + rewrite c_str_fixed, drop_final_snoc.
      * f_equal. eapply IH; [|done..].
        rewrite string_length_app. simpl. lia.
      * by rewrite contains_app, Hnul_a.
    + done.
    + by destruct a.
    + apply gzgets_chars_line; [done|lia].
Qed.

Lemma gz_lines_cut len a b :
  2 ≤ len → contains NL a = false → contains NUL a = false →
  String.length a = len - 1 →
  gz_lines len (a +:+ b) = a :: gz_lines len b.
Proof.
  intros Hlen Hnl Hnul Ha.
  rewrite (gz_lines_step len _ a b).
  - by rewrite c_str_fixed, drop_final_fixed.
  - done.
  - destruct a; [simpl in Ha; lia|done].
  - by apply gzgets_chars_full.
Qed.

Lemma gz_lines_no_newline len content :
  2 ≤ len →
  Forall (λ line, contains NL line = false ∧ String.length line < len)
    (gz_lines len content).
Proof.
  intros Hlen. remember (String.length content) as k eqn:Hk.
  revert content Hk. induction (lt_wf k) as [k _ IH]. intros content ->.
  destruct (decide (content = "")) as [->|Hne]; [constructor|].
  destruct (gzgets_chars (len - 1) content) as [buf rest] eqn:E.
  rewrite (gz_lines_step len content buf rest) by done.
  constructor.
  - split.
    + pose proof (drop_final_c_str_gzgets (len - 1) content) as H.
      by rewrite E in H.
    + pose proof (length_drop_final NL (c_str buf)).
      pose proof (length_c_str buf).
      pose proof (gzgets_chars_length _ _ _ _ E). lia.
  - eapply IH; [|done]. apply gzgets_chars_progress in E; [done|lia|done].
Qed.

Lemma gz_lines_concat len content :
  2 ≤ len → contains NUL content = false →
  foldr String.append "" (gz_lines len content) =
    foldr String.append "" (getlines NL content).
Proof.
  intros Hlen. remember (String.length content) as k eqn:Hk.
  revert content Hk. induction (lt_wf k) as [k _ IH]. intros content -> Hnul.
  destruct (decide (content = "")) as [->|Hne]; [done|].
  destruct (gzgets_chars (len - 1) content) as [buf rest] eqn:E.
  rewrite (gz_lines_step len content buf rest) by done.
  pose proof (gzgets_chars_progress (len - 1) content buf rest
                ltac:(lia) Hne E) as Hlt.
  pose proof (gzgets_chars_app _ _ _ _ E) as ->.
  rewrite contains_app in Hnul. apply orb_false_iff in Hnul as [Hbuf Hrest].
  rewrite c_str_fixed by done. cbn [foldr].
  rewrite (IH _ Hlt rest) by done.
  destruct (gzgets_chars_newline _ _ _ _ E) as [Hnl|(a & -> & Ha)].
  - by rewrite drop_final_fixed, concat_getlines_app.
  - rewrite drop_final_snoc, string_app_assoc, string_app_cons,
      string_app_nil_l.
    by rewrite getlines_line.
Qed.

Lemma BUFFER_SIZE_ge : 2 ≤ BUFFER_SIZE.
Proof. unfold BUFFER_SIZE. lia. Qed.

(** Neither reader delivers a line with a newline in it. *)
Lemma reader_thread_no_newline gz file :
  Forall (λ line, contains NL line = false) (reader_thread gz file).
Proof.
  unfold reader_thread, read_gz_stream, read_regular_stream.
  destruct gz, file as [content|]; try constructor.
  - eapply Forall_impl; [apply gz_lines_no_newline, BUFFER_SIZE_ge|].
    by intros line [? _].
  - apply getlines_no_delimiter.
Qed.
End readers.

(** X6. On a gzipped input whose uncompressed text has no NUL character
    and whose lines are all shorter than the buffer less the newline and
    the terminator, [read_gz_stream] delivers the lines [read_regular_stream]
    delivers on that text. *)
Theorem read_gz_stream_agrees_on_short_lines (content : string) :
  contains NUL content = false →
  Forall (λ line, String.length line + 1 < BUFFER_SIZE) (getlines NL content) →
  read_gz_stream (Some content) = read_regular_stream (Some content).
Proof.
  intros Hnul Hshort. unfold read_gz_stream, read_regular_stream. f_equal.
  by apply gz_lines_getlines; [apply BUFFER_SIZE_ge|..].
Qed.

Lemma read_gz_stream_agrees_on_short_lines_witness :
  read_gz_stream (Some (text [vcf_header; ""; vcf_rec1])) =
    read_regular_stream (Some (text [vcf_header; ""; vcf_rec1])).
Proof.
  apply (read_gz_stream_agrees_on_short_lines (text [vcf_header; ""; vcf_rec1])).
  - vm_compute. reflexivity.
  - match goal with |- Forall _ ?l =>
      let l' := eval vm_compute in l in change l with l' end.
    repeat (apply List.Forall_cons; [apply Nat.ltb_lt; vm_compute; reflexivity|]).
    apply List.Forall_nil.
Defined.

(** X7. [read_gz_stream] cuts a long line.  When the text starts with
    [BUFFER_SIZE - 1] characters that are neither newline nor NUL, they are
    delivered as a line of their own and reading goes on behind them as if
    a new line began there; if the text goes on with anything but a
    newline, the regular reader delivers other lines than the gzip reader
    for the same text. *)
Theorem read_gz_stream_cuts_long_lines (a b : string) :
  contains NL a = false → contains NUL a = false →
  String.length a = BUFFER_SIZE - 1 →
  gz_lines BUFFER_SIZE (a +:+ b) = a :: gz_lines BUFFER_SIZE b ∧
  (∀ c b', b = String c b' → c ≠ NL →
     read_gz_stream (Some (a +:+ b)) ≠ read_regular_stream (Some (a +:+ b))).
Proof.
  intros Hnl Hnul Hlen.
  pose proof (gz_lines_cut _ a b BUFFER_SIZE_ge Hnl Hnul Hlen) as Hcut.
  split; [done|]. intros c b' -> Hc.
  unfold read_gz_stream, read_regular_stream. rewrite Hcut.
  assert (∃ tok v, getlines NL (String c b') = String c tok :: v)
    as (tok & v & Hb).
  { rewrite getlines_cons. destruct (Ascii.eqb_spec c NL) as [|_]; [done|].
    destruct (getlines NL b') as [|tok v]; by eexists _, _. }
  rewrite (getlines_prepend NL a _ _ _ Hnl Hb).
  intros [= Ha _]. apply (f_equal String.length) in Ha.
  rewrite string_length_app in Ha. simpl in Ha. lia.
Qed.

Lemma read_gz_stream_cuts_long_lines_witness :
  let a := string_of_list_ascii (replicate (BUFFER_SIZE - 1) "A"%char) in
  gz_lines BUFFER_SIZE (a +:+ "CGT") = a :: gz_lines BUFFER_SIZE "CGT" ∧
  (∀ c b', "CGT" = String c b' → c ≠ NL →
     read_gz_stream (Some (a +:+ "CGT")) ≠
       read_regular_stream (Some (a +:+ "CGT"))).
Proof.
  intros a.
  apply (read_gz_stream_cuts_long_lines a "CGT").
  - vm_compute. reflexivity.
  - vm_compute. reflexivity.
  - apply Nat.eqb_eq. vm_compute. reflexivity.
Defined.

(** X8. Whatever the gzipped text, no line [read_gz_stream] delivers has
    a newline in it or is as long as the buffer; and if the text has no
    NUL character the lines delivered, put end to end, are the lines of the
    regular reader put end to end: the gzip reader may cut lines, it loses
    nothing but the newlines. *)
Theorem read_gz_stream_loses_no_character (content : string) :
  Forall (λ line, contains NL line = false ∧ String.length line < BUFFER_SIZE)
    (gz_lines BUFFER_SIZE content) ∧
  (contains NUL content = false →
   foldr String.append "" (gz_lines BUFFER_SIZE content) =
     foldr String.append "" (getlines NL content)).
Proof.
  split.
  - apply gz_lines_no_newline, BUFFER_SIZE_ge.
  - apply gz_lines_concat, BUFFER_SIZE_ge.
Qed.

Lemma read_gz_stream_loses_no_character_witness :
  foldr String.append "" (gz_lines BUFFER_SIZE (text [vcf_header; vcf_rec1])) =
    foldr String.append "" (getlines NL (text [vcf_header; vcf_rec1])).
Proof.
  apply (proj2 (read_gz_stream_loses_no_character
                  (text [vcf_header; vcf_rec1]))).
  vm_compute. reflexivity.
Defined.

(** X9. What [write_regular_stream] writes, [read_regular_stream] reads
    back: a file made of lines without a newline, each followed by a
    newline, is read as those lines, empty ones included. *)
Theorem read_regular_stream_reads_back (lines : list string) :
  Forall (λ line, contains NL line = false) lines →
  read_regular_stream (Some (text lines)) = Some lines.
Proof.
  intros Hlines. unfold read_regular_stream. f_equal.
  by apply getlines_text.
Qed.

Lemma read_regular_stream_reads_back_witness :
  read_regular_stream (Some (text [vcf_header; ""; vcf_rec1])) =
    Some [vcf_header; ""; vcf_rec1].
Proof.
  apply (read_regular_stream_reads_back [vcf_header; ""; vcf_rec1]).
  repeat (apply List.Forall_cons; [vm_compute; reflexivity|]).
  apply List.Forall_nil.
Defined.

(** * The pipeline with any number of workers *)

Section accounting.
Implicit Types (s : state) (a : action) (ws : list worker) (w : worker).
Implicit Types (f : worker → list string).

Lemma concat_insert f ws i w w' :
  ws !! i = Some w →
  concat (f <$> <[ i := w' ]> ws) ++ f w ≡ₚ concat (f <$> ws) ++ f w'.
Proof.
  revert i. induction ws as [|w0 ws IH]; intros [|i] Hi; simplify_eq/=.
  - solve_Permutation.
  - rewrite <- !app_assoc. f_equiv. by apply IH.
Qed.

Lemma concat_insert_same f ws i w w' :
  ws !! i = Some w → f w = [] → f w' = [] →
  concat (f <$> <[ i := w' ]> ws) ≡ₚ concat (f <$> ws).
Proof.
  intros Hi Hw Hw'. pose proof (concat_insert f ws i w w' Hi) as H.
  by rewrite Hw, Hw', !app_nil_r in H.
Qed.

Lemma elem_of_concat_lookup f ws i w x :
  ws !! i = Some w → x ∈ f w → x ∈ concat (f <$> ws).
Proof.
  revert i. induction ws as [|w0 ws IH]; intros [|i] Hi Hx; simplify_eq/=.
  - apply elem_of_app. by left.
  - apply elem_of_app. right. by eapply IH.
Qed.

Lemma concat_replicate_Waiting f n :
  f Waiting = [] → concat (f <$> replicate n Waiting) = [].
Proof. intros Hf. induction n as [|n IH]; [done|]. simpl. by rewrite Hf. Qed.

(** What one transition does to the lines: it moves them around, or it
    is the processing of one line by a worker, which may throw. *)
Lemma step_accounts a s s' :
  do_action a s = Some s' →
  (raw_lines s' ≡ₚ raw_lines s ∧
   processed_lines s' ≡ₚ processed_lines s ∧
   sample_indices s' = sample_indices s ∧
   terminated s' = None) ∨
  (∃ line indices' out,
     process_line (target_samples s) (sample_indices s) line =
       Ok (indices', out) ∧
     raw_lines s ≡ₚ line :: raw_lines s' ∧
     processed_lines s' ≡ₚ out :: processed_lines s ∧
     sample_indices s' = indices' ∧
     terminated s' = None) ∨
  (∃ line e,
     line ∈ raw_lines s ∧
     process_line (target_samples s) (sample_indices s) line = Throw e ∧
     terminated s' = Some e ∧
     raw_lines s' = raw_lines s ∧
     processed_lines s' = processed_lines s ∧
     sample_indices s' = sample_indices s).
Proof.
  intros Ha.
  invert_action Ha; unfold raw_lines, processed_lines; cbn [input input_queue
    workers output_queue out_file sample_indices terminated target_samples].
  - (* ReaderPush *)
    left. split_and!; [solve_Permutation|done..].
  - (* ReaderFinish *)
    left. by split_and!.
  - (* WorkerPop *)
    match goal with Hw : ws !! i = Some Waiting |- _ =>
      pose proof (concat_insert raw_line ws i Waiting (Popped s) Hw)
        as Hraw;
      pose proof (concat_insert_same done_line ws i Waiting (Popped s) Hw
                    eq_refl eq_refl) as Hdone
    end.
    cbn [raw_line] in Hraw. rewrite app_nil_r in Hraw.
    left. split_and!; [|by rewrite Hdone|done..].
    rewrite Hraw. solve_Permutation.
  - (* WorkerExit *)
    match goal with Hw : ws !! i = Some Waiting |- _ =>
      pose proof (concat_insert_same raw_line ws i Waiting Exited Hw
                    eq_refl eq_refl) as Hraw;
      pose proof (concat_insert_same done_line ws i Waiting Exited Hw
                    eq_refl eq_refl) as Hdone
    end.
    left. split_and!; [by rewrite Hraw|by rewrite Hdone|done..].
  - (* WorkerProcess, processed *)
    right. left.
    match goal with
    | Hw : ws !! i = Some (Popped ?l),
      Hp : process_line _ _ _ = Ok (?indices', ?o) |- _ =>
        exists l, indices', o;
        pose proof (concat_insert raw_line ws i (Popped l) (Processed o) Hw)
          as Hraw;
        pose proof (concat_insert done_line ws i (Popped l) (Processed o) Hw)
          as Hdone
    end.
    cbn [raw_line done_line] in Hraw, Hdone.
    rewrite app_nil_r in Hraw, Hdone.
    split_and!; [done| | |done..].
    + rewrite <- Hraw. solve_Permutation.
    + rewrite Hdone. solve_Permutation.
  - (* WorkerProcess, exception *)
    right. right.
    match goal with Hw : ws !! i = Some (Popped ?l) |- _ =>
      exists l, e; split_and!; try done;
      rewrite !elem_of_app; right; right;
      by apply (elem_of_concat_lookup raw_line ws i (Popped l));
        [|apply list_elem_of_singleton]
    end.
  - (* WorkerPush *)
    match goal with Hw : ws !! i = Some (Processed ?l) |- _ =>
      pose proof (concat_insert_same raw_line ws i (Processed l) Waiting Hw
                    eq_refl eq_refl) as Hraw;
      pose proof (concat_insert done_line ws i (Processed l) Waiting Hw)
        as Hdone
    end.
    cbn [done_line] in Hdone. rewrite app_nil_r in Hdone.
    left. split_and!; [by rewrite Hraw| |done..].
    rewrite <- Hdone. solve_Permutation.
  - (* MainSignal *)
    left. by split_and!.
  - (* WriterWrite *)
    left. split_and!; [done|solve_Permutation|done..].
  - (* WriterExit *)
    left. by split_and!.
Qed.

Lemma raw_lines_start targets num_threads lines :
  raw_lines (start targets num_threads lines) = lines.
Proof.
  unfold raw_lines, start. simpl.
  by rewrite concat_replicate_Waiting, app_nil_r.
Qed.

Lemma processed_lines_start targets num_threads lines :
  processed_lines (start targets num_threads lines) = [].
Proof.
  unfold processed_lines, start. simpl.
  by rewrite concat_replicate_Waiting.
Qed.

Lemma filter_is_header_plain (lines : list string) :
  Forall (λ line, is_header line = false) lines →
  filter (λ line, is_header line = true) lines = [].
Proof.
  induction 1 as [|line lines Hline _ IH]; [done|].
  rewrite filter_cons, decide_False; [done|congruence].
Qed.

Lemma out_file_processed s line :
  line ∈ out_file s → line ∈ processed_lines s.
Proof. intros H. unfold processed_lines. rewrite !elem_of_app. auto. Qed.
End accounting.

Section no_newline.
Context (targets : gset string).
Implicit Types (s : state) (line : string) (indices : list nat).

Lemma sample_field_contains c fields idx :
  c ≠ "."%char →
  Forall (λ f, contains c f = false) fields →
  contains c (sample_field fields idx) = false.
Proof.
  intros Hc Hf. unfold sample_field.
  destruct (Nat.ltb_spec idx (length fields)) as [Hlt|].
  - rewrite Forall_forall in Hf. apply Hf.
    apply list_elem_of_In, nth_In. done.
  - cbn [contains]. by destruct (Ascii.eqb_spec "."%char c) as [<-|].
Qed.

(** Processing a line puts no newline into it. *)
Lemma process_line_no_newline indices line indices' out :
  contains NL line = false →
  process_line targets indices line = Ok (indices', out) →
  contains NL out = false.
Proof.
  intros Hline.
  pose proof (getlines_contains NL TAB line Hline) as Hfields.
  fold (split_fields line) in Hfields.
  destruct (String.prefix "#CHROM" line) eqn:Hp.
  - rewrite process_line_header, process_header_prior by done.
    destruct (find_format _ 0) as [format_idx|]; [|done]. cbv zeta.
    destruct (indices ++ _); [done|]. intros [= _ <-].
    apply contains_join_tab; [done|]. apply Forall_app. split.
    + by apply Forall_take.
    + apply Forall_forall. intros f [_ Hf]%list_elem_of_filter.
      pose proof (Forall_drop _ (S format_idx) _ Hfields) as Hdrop.
      rewrite Forall_forall in Hdrop. by apply Hdrop.
  - destruct (decide (line = "")) as [->|Hne]; [by intros [= _ <-]|].
    destruct (starts_with_hash line) eqn:Hh.
    { rewrite process_line_comment by done. by intros [= _ <-]. }
    rewrite process_line_data by done. intros [= _ <-].
    destruct (decide (length (split_fields line) < 9)) as [Hshort|Hlong].
    { by rewrite process_data_line_short. }
    rewrite process_data_line_long by lia.
    apply contains_join_tab; [done|]. apply Forall_app. split.
    + by apply Forall_take.
    + apply Forall_fmap, Forall_true. intros idx.
      by apply sample_field_contains.
Qed.

Lemma no_newline_reachable num_threads lines s :
  Forall (λ line, contains NL line = false) lines →
  reachable (start targets num_threads lines) s →
  Forall (λ line, contains NL line = false) (raw_lines s) ∧
  Forall (λ line, contains NL line = false) (processed_lines s).
Proof.
  intros Hlines Hreach. pose proof Hreach as Hr. revert s Hreach Hr.
  apply (rtc_ind_r
    (λ s, reachable (start targets num_threads lines) s →
          Forall (λ line, contains NL line = false) (raw_lines s) ∧
          Forall (λ line, contains NL line = false) (processed_lines s))).
  - intros _. by rewrite raw_lines_start, processed_lines_start.
  - intros s1 s2 Hreach [a Ha] IH _.
    destruct (IH Hreach) as [Hraw Hdone].
    pose proof (wf_reachable _ _ _ _ Hreach) as (Hts & _).
    destruct (step_accounts a s1 s2 Ha)
      as [(Hr & Hd & _)|[(line & indices' & out & Hp & Hr & Hd & _)
                        |(line & e & _ & _ & _ & -> & -> & _)]]; [| |done].
    + by rewrite Hr, Hd.
    + rewrite Hr in Hraw. rewrite Hd.
      inversion_clear Hraw as [|?? Hline Hraw'].
      split; [done|]. constructor; [|done].
      rewrite Hts in Hp. by eapply process_line_no_newline.
Qed.
End no_newline.

(** X10. Whatever the input file, gzipped or not, and however many workers
    run, no line the writer puts out has a newline in it: reading the
    output file line by line gives back the lines the writer wrote, one
    for one. *)
Theorem output_file_reads_back (gz : bool) (file : option string)
    (targets : gset string) (num_threads : nat) (s : state) :
  reachable (start targets num_threads (reader_thread gz file)) s →
  Forall (λ line, contains NL line = false) (out_file s) ∧
  read_regular_stream (Some (output_text s)) = Some (out_file s).
Proof.
  intros Hreach.
  destruct (no_newline_reachable targets num_threads _ s
              (reader_thread_no_newline gz file) Hreach) as [_ Hdone].
  assert (Forall (λ line, contains NL line = false) (out_file s)) as Hout.
  { apply Forall_forall. intros line Hline%out_file_processed.
    rewrite Forall_forall in Hdone. by apply Hdone. }
  split; [done|]. unfold read_regular_stream, output_text. f_equal.
  by apply getlines_text.
Qed.

Lemma output_file_reads_back_witness :
  ∃ s,
    reachable (start {[ "S2" ]} 1
                 (reader_thread false (Some (text [vcf_header; vcf_rec1])))) s ∧
    out_file s = [vcf_header_S2; vcf_rec1_S2] ∧
    Forall (λ line, contains NL line = false) (out_file s) ∧
    read_regular_stream (Some (output_text s)) = Some (out_file s).
Proof.
  eexists. split.
  { apply (run_reachable (one_at_a_time 0 ++ one_at_a_time 0 ++ finish 1)).
    vm_compute. reflexivity. }
  split; [vm_compute; reflexivity|].
  match goal with
  | |- context [output_text ?s] =>
      apply (output_file_reads_back false
               (Some (text [vcf_header; vcf_rec1])) {[ "S2" ]} 1 s)
  end.
  apply (run_reachable (one_at_a_time 0 ++ one_at_a_time 0 ++ finish 1)).
  vm_compute. reflexivity.
Defined.

Section single_header.
Context (targets : gset string) (num_threads : nat).
Context (before after : list string) (header_line header' : string).
Context (indices : list nat).
Context (Hplain : Forall (λ line, is_header line = false) (before ++ after)).
Context (Hheader : is_header header_line = true).
Context (Hresolved :
  process_header targets [] header_line = Ok (indices, header')).
Implicit Types (s : state) (line out : string).

Lemma from_file_header line :
  from_file before after header_line line → is_header line = true →
  line = header_line.
Proof.
  intros [->|Hline] Hh; [done|].
  rewrite Forall_forall in Hplain. rewrite (Hplain _ Hline) in Hh. done.
Qed.

Lemma headers_pending_start :
  headers_pending
    (start targets num_threads (before ++ header_line :: after)) = 1.
Proof.
  unfold headers_pending. rewrite raw_lines_start.
  apply Forall_app in Hplain as [Hb Ha].
  rewrite filter_app, filter_cons, decide_True by done.
  by rewrite !filter_is_header_plain.
Qed.

Lemma single_header_reachable s :
  reachable (start targets num_threads (before ++ header_line :: after)) s →
  terminated s = None ∧ resolving indices s ∧
  Forall (from_file before after header_line) (raw_lines s) ∧
  Forall (made targets before after header' indices) (processed_lines s).
Proof.
  intros Hreach. pose proof Hreach as Hr. revert s Hreach Hr.
  apply (rtc_ind_r
    (λ s, reachable (start targets num_threads
                       (before ++ header_line :: after)) s →
          terminated s = None ∧ resolving indices s ∧
          Forall (from_file before after header_line) (raw_lines s) ∧
          Forall (made targets before after header' indices)
            (processed_lines s))).
  - intros _. split_and!; [done| | |].
    + left. split; [apply headers_pending_start|done].
    + rewrite raw_lines_start. apply Forall_app. split.
      * apply Forall_forall. intros line Hline. right.
        apply elem_of_app. by left.
      * constructor; [by left|].
        apply Forall_forall. intros line Hline. right.
        apply elem_of_app. by right.
    + by rewrite processed_lines_start.
  - intros s1 s2 Hreach [a Ha] IH _.
    destruct (IH Hreach) as (Hterm & Hres & Hraw & Hdone).
    pose proof (wf_reachable _ _ _ _ Hreach) as (Hts & _).
    destruct (step_accounts a s1 s2 Ha)
      as [(Hr & Hd & Hsi & Ht)
         |[(line & indices' & out & Hp & Hr & Hd & Hsi & Ht)
          |(line & e & Hline & Hp & _)]].
    + (* the lines are moved around *)
      split_and!; [done| |by rewrite Hr|by rewrite Hd].
      unfold resolving, headers_pending in *. by rewrite Hr, Hsi.
    + (* a line is processed *)
      rewrite Hts in Hp. rewrite Hr in Hraw.
      inversion_clear Hraw as [|?? Hline Hraw'].
      assert (headers_pending s1 =
                (if is_header line then 1 else 0) + headers_pending s2)
        as Hcount.
      { unfold headers_pending. rewrite Hr, filter_cons.
        destruct (decide (is_header line = true)) as [->|Hn]; [done|].
        by destruct (is_header line). }
      destruct (is_header line) eqn:Hh.
      * (* the header *)
        pose proof (from_file_header _ Hline Hh) as ->.
        destruct Hres as [[Hpend Hnone]|[Hpend _]]; [|lia].
        rewrite Hnone, process_line_header, Hresolved in Hp by done.
        injection Hp as <- <-.
        split_and!; [done| |done|].
        -- right. split; [lia|done].
        -- rewrite Hd. constructor; [by left|done].
      * (* any other line *)
        destruct Hline as [->|Hline]; [congruence|].
        destruct (process_line_plain targets (sample_indices s1) line Hh)
          as [out' Hp'].
        rewrite Hp' in Hp. injection Hp as <- <-.
        split_and!; [done| |done|].
        -- unfold resolving. rewrite Hsi.
           by replace (headers_pending s2) with (headers_pending s1) by lia.
        -- rewrite Hd. constructor; [|done]. right. exists line.
           split; [done|].
           destruct Hres as [[_ Hnone]|[_ Hsome]].
           ++ left. by rewrite <- Hnone at 2; rewrite <- Hnone.
           ++ right. by rewrite <- Hsome at 2; rewrite <- Hsome.
    + (* no line can throw *)
      exfalso. rewrite Hts in Hp.
      rewrite Forall_forall in Hraw. pose proof (Hraw _ Hline) as Hfrom.
      destruct (is_header line) eqn:Hh.
      * pose proof (from_file_header _ Hfrom Hh) as ->.
        assert (0 < headers_pending s1) as Hpos.
        { unfold headers_pending.
          assert (header_line ∈
                    filter (λ line, is_header line = true) (raw_lines s1))
            as Hin by (by apply list_elem_of_filter).
          destruct (filter _ (raw_lines s1)); [by inversion Hin|simpl; lia]. }
        destruct Hres as [[_ Hnone]|[Hpend _]]; [|lia].
        rewrite Hnone, process_line_header, Hresolved in Hp by done. done.
      * destruct (process_line_plain targets (sample_indices s1) line Hh)
          as [out' Hp'].
        by rewrite Hp' in Hp.
Qed.
End single_header.



Section no_input.
Context (targets : gset string) (num_threads : nat).
Implicit Types (s : state).

Lemma no_input_reachable s :
  reachable (start targets num_threads []) s →
  terminated s = None ∧ raw_lines s = [] ∧ processed_lines s = [].
Proof.
  revert s. apply (rtc_ind_r
    (λ s, terminated s = None ∧ raw_lines s = [] ∧ processed_lines s = [])).
  - by rewrite raw_lines_start, processed_lines_start.
  - intros s1 s2 _ [a Ha] (Hterm & Hraw & Hdone).
    destruct (step_accounts a s1 s2 Ha)
      as [(Hr & Hd & _ & Ht)
         |[(line & indices' & out & _ & Hr & _)
          |(line & e & Hline & _)]].
    + rewrite Hraw in Hr. rewrite Hdone in Hd.
      by apply Permutation_nil_r in Hr, Hd.
    + rewrite Hraw in Hr. by apply Permutation_nil_cons in Hr.
    + rewrite Hraw in Hline. by apply elem_of_nil in Hline.
Qed.
End no_input.



(** * [main] *)

(** One round of the argument loop in a hypothesis: the tests on the
    argument, on there being a value behind it and on what [std::stoi]
    makes of it. *)
Ltac parse_step H :=
  cbn [parse_arguments] in H;
  repeat (match type of H with
          | context [if is_option ?a ?b ?c then _ else _] =>
              destruct (is_option a b c) eqn:?
          | context [match ?l with [] => _ | _ :: _ => _ end] => destruct l
          | context [match stoi ?v with Some _ => _ | None => _ end] =>
              destruct (stoi v) eqn:?
          | context [if (?z <? 1)%Z then _ else _] =>
              destruct (Z.ltb_spec z 1)
          end; try discriminate H).

Section arguments.
Implicit Types (args : list string) (o : options) (arg value : string).

Lemma is_option_true arg short long :
  is_option arg short long = true → arg = short ∨ arg = long.
Proof.
  unfold is_option. intros [H|H]%orb_true_iff; apply String.eqb_eq in H; auto.
Qed.

(** What [std::stoi] returns is an [int]. *)
Lemma stoi_range value n :
  stoi value = Some n → (INT_MIN ≤ n ≤ INT_MAX)%Z.
Proof.
  unfold stoi. destruct (match strip_leading value with
                         | "" => _ | String _ _ => _ end) as [negative s].
  destruct (digits s None) as [v|]; [|done].
  destruct (_ && _)%bool eqn:E; [|done]. intros [= <-].
  apply andb_true_iff in E as [?%Z.leb_le ?%Z.leb_le]. done.
Qed.

Lemma parse_arguments_Run n args o o' :
  length args ≤ n →
  (1 ≤ num_threads o ≤ INT_MAX)%Z →
  parse_arguments args o = Run o' →
  (1 ≤ num_threads o' ≤ INT_MAX)%Z ∧
  input_file o' ≠ "" ∧ output_file o' ≠ "" ∧ sample_file o' ≠ "".
Proof.
  revert args o. induction n as [|n IH]; intros args o Hlen Ho Hrun.
  - destruct args; [|simpl in Hlen; lia]. cbn [parse_arguments] in Hrun.
    destruct (_ || _)%bool eqn:E; [done|]. injection Hrun as <-.
    apply orb_false_iff in E as [[E1 E2]%orb_false_iff E3].
    apply String.eqb_neq in E1, E2, E3. done.
  - destruct args as [|arg args].
    { apply (IH [] o); [simpl; lia|done..]. }
    simpl in Hlen. parse_step Hrun;
      (eapply IH; [|
        |exact Hrun]; [simpl in *; lia|]); cbn [num_threads]; try done.
    match goal with Hs : stoi _ = Some _ |- _ => apply stoi_range in Hs end.
    lia.
Qed.

Lemma parse_arguments_required n args o o' :
  length args ≤ n →
  parse_arguments args o = Run o' →
  (input_file o = "" → "-i" ∈ args ∨ "--input" ∈ args) ∧
  (output_file o = "" → "-o" ∈ args ∨ "--output" ∈ args) ∧
  (sample_file o = "" → "-s" ∈ args ∨ "--samples" ∈ args).
Proof.
  revert args o. induction n as [|n IH]; intros args o Hlen Hrun.
  - destruct args; [|simpl in Hlen; lia]. cbn [parse_arguments] in Hrun.
    destruct (_ || _)%bool eqn:E; [done|].
    apply orb_false_iff in E as [[E1 E2]%orb_false_iff E3].
    apply String.eqb_neq in E1, E2, E3. done.
  - destruct args as [|arg args].
    { apply (IH [] o); [simpl; lia|done]. }
    simpl in Hlen. parse_step Hrun;
      (eapply IH in Hrun; [|simpl in *; lia]);
      cbn [input_file output_file sample_file] in Hrun;
      destruct Hrun as (Hi & Ho & Hs);
      repeat match goal with
        | H : is_option _ _ _ = true |- _ => apply is_option_true in H
        end;
      (split_and!; intros Hempty;
       first
         [ destruct (Hi Hempty); [left|right]; by repeat constructor
         | destruct (Ho Hempty); [left|right]; by repeat constructor
         | destruct (Hs Hempty); [left|right]; by repeat constructor
         | match goal with
           | H : _ = _ ∨ _ = _ |- _ =>
               destruct H as [->| ->]; [left|right]; by constructor
           end ]).
Qed.

Lemma parse_arguments_Terminate n args o :
  length args ≤ n →
  parse_arguments args o = Terminate →
  ∃ before option value after,
    args = before ++ option :: value :: after ∧
    (option = "-t" ∨ option = "--threads") ∧
    stoi value = None.
Proof.
  revert args o. induction n as [|n IH]; intros args o Hlen Hrun.
  - destruct args; [|simpl in Hlen; lia]. cbn [parse_arguments] in Hrun.
    by destruct (_ || _)%bool.
  - destruct args as [|arg args].
    { apply (IH [] o); [simpl; lia|done]. }
    simpl in Hlen. parse_step Hrun;
      try (eapply IH in Hrun; [|simpl in *; lia];
           destruct Hrun as (before & option & value & after & -> & ? & ?);
           first
             [ by exists (arg :: before), option, value, after
             | by eexists (arg :: _ :: before), option, value, after ]).
    match goal with
    | H : is_option arg "-t" _ = true |- _ => apply is_option_true in H
    end.
    by eexists [], arg, _, _.
Qed.
End arguments.

(** X13. When [main] gets as far as starting the threads, the three file
    names it passes on are not empty and the number of workers is at least
    1 and at most the largest [int]: the pipeline it starts is the one of
    [filter] for the sample file named on the command line, on the lines
    the reader delivers from the input file named there. *)
Theorem main_starts_with_at_least_one_worker (args : list string)
    (files : string → option string) (gz : bool) (s : state) :
  main args files gz = Started s →
  ∃ o targets,
    parse_arguments args default_options = Run o ∧
    load_samples (sample_file o) (files (sample_file o)) = Ok targets ∧
    s = start targets (Z.to_nat (num_threads o))
          (reader_thread gz (files (input_file o))) ∧
    input_file o ≠ "" ∧ output_file o ≠ "" ∧ sample_file o ≠ "" ∧
    (1 ≤ Z.of_nat (length (workers s)) ≤ INT_MAX)%Z.
Proof.
  unfold main, VCFSampleFilter.filter.
  destruct (parse_arguments args default_options) as [| |o] eqn:Hparse;
    [done..|].
  destruct (load_samples _ _) as [targets|e] eqn:Hload; [|done].
  intros [= <-]. exists o, targets.
  destruct (parse_arguments_Run (length args) args default_options o)
    as (Hn & Hi & Ho & Hs); [done|by vm_compute|done|].
  split_and!; try done;
    cbn [start workers]; rewrite length_replicate, Z2Nat.id; lia.
Qed.

Lemma main_starts_with_at_least_one_worker_witness :
  ∃ s o targets,
    main ["-t"; "2"; "-i"; "in.vcf"; "-s"; "samples.txt"; "-o"; "out.vcf"]
      (λ name, if String.eqb name "samples.txt" then Some (text ["S2"])
               else Some (text [vcf_header; vcf_rec1]))
      false = Started s ∧
    parse_arguments
      ["-t"; "2"; "-i"; "in.vcf"; "-s"; "samples.txt"; "-o"; "out.vcf"]
      default_options = Run o ∧
    load_samples (sample_file o)
      (if String.eqb (sample_file o) "samples.txt" then Some (text ["S2"])
       else Some (text [vcf_header; vcf_rec1])) = Ok targets ∧
    s = start targets (Z.to_nat (num_threads o))
          (reader_thread false
             (if String.eqb (input_file o) "samples.txt"
              then Some (text ["S2"])
              else Some (text [vcf_header; vcf_rec1]))) ∧
    input_file o ≠ "" ∧ output_file o ≠ "" ∧ sample_file o ≠ "" ∧
    (1 ≤ Z.of_nat (length (workers s)) ≤ INT_MAX)%Z.
Proof.
  assert (∃ s,
    main ["-t"; "2"; "-i"; "in.vcf"; "-s"; "samples.txt"; "-o"; "out.vcf"]
      (λ name, if String.eqb name "samples.txt" then Some (text ["S2"])
               else Some (text [vcf_header; vcf_rec1]))
      false = Started s)
    as [s Hs].
  { eexists. reflexivity. }
  exists s.
  destruct (main_starts_with_at_least_one_worker _ _ _ _ Hs)
    as (o & targets & H).
  exists o, targets. split; [exact Hs|exact H].
Defined.

(** X14. [main] does not get past its argument check unless each of the
    three required options is among the arguments, in its short or its
    long form. *)
Theorem main_requires_the_three_files (args : list string) (o : options) :
  parse_arguments args default_options = Run o →
  ("-i" ∈ args ∨ "--input" ∈ args) ∧
  ("-o" ∈ args ∨ "--output" ∈ args) ∧
  ("-s" ∈ args ∨ "--samples" ∈ args).
Proof.
  intros Hrun.
  destruct (parse_arguments_required (length args) args default_options o)
    as (Hi & Ho & Hs); [done..|].
  split_and!; [by apply Hi|by apply Ho|by apply Hs].
Qed.

Lemma main_requires_the_three_files_witness :
  ("-i" ∈ ["--samples"; "s.txt"; "-i"; "in.vcf"; "-z"; "-o"; "out.vcf"] ∨
   "--input" ∈ ["--samples"; "s.txt"; "-i"; "in.vcf"; "-z"; "-o"; "out.vcf"]) ∧
  ("-o" ∈ ["--samples"; "s.txt"; "-i"; "in.vcf"; "-z"; "-o"; "out.vcf"] ∨
   "--output" ∈ ["--samples"; "s.txt"; "-i"; "in.vcf"; "-z"; "-o"; "out.vcf"]) ∧
  ("-s" ∈ ["--samples"; "s.txt"; "-i"; "in.vcf"; "-z"; "-o"; "out.vcf"] ∨
   "--samples" ∈ ["--samples"; "s.txt"; "-i"; "in.vcf"; "-z"; "-o"; "out.vcf"]).
Proof.
  apply (main_requires_the_three_files
           ["--samples"; "s.txt"; "-i"; "in.vcf"; "-z"; "-o"; "out.vcf"]
           (Options "in.vcf" "out.vcf" "s.txt" true 1)).
  reflexivity.
Defined.

(** X15. The argument loop ends in [std::terminate] only on a thread
    count [std::stoi] rejects: some [-t] or [--threads] among the
    arguments is followed by a value that has no leading number or does
    not fit an [int]; the exception is thrown outside the [try] block of
    [main], and [main] then starts nothing. *)
Theorem main_terminates_only_on_a_bad_thread_count (args : list string)
    (files : string → option string) (gz : bool) :
  main args files gz = Terminated →
  ∃ before option value after,
    args = before ++ option :: value :: after ∧
    (option = "-t" ∨ option = "--threads") ∧
    stoi value = None.
Proof.
  unfold main.
  destruct (parse_arguments args default_options) as [| |o] eqn:Hparse;
    [done| |by destruct (VCFSampleFilter.filter _ _ _ _)].
  intros _. by eapply parse_arguments_Terminate.
Qed.

Lemma main_terminates_only_on_a_bad_thread_count_witness :
  ∃ before option value after,
    ["-i"; "in.vcf"; "--threads"; "four"; "-o"; "out.vcf"] =
      before ++ option :: value :: after ∧
    (option = "-t" ∨ option = "--threads") ∧
    stoi value = None.
Proof.
  apply (main_terminates_only_on_a_bad_thread_count
           ["-i"; "in.vcf"; "--threads"; "four"; "-o"; "out.vcf"]
           (λ _, None) false).
  reflexivity.
Defined.

(** * The pipeline without its writer *)

Section writer_failed.
Context (targets : gset string) (num_threads : nat) (lines : list string).
Implicit Types (s : state) (a : action).

Lemma reachable_writer_failed_reachable s0 s :
  reachable_writer_failed s0 s → reachable s0 s.
Proof.
  induction 1 as [|s1 s2 s3 (a & _ & Ha) _ IH]; [apply rtc_refl|].
  eapply rtc_l; [by exists a|done].
Qed.

Lemma in_flight_Exited (ws : list worker) :
  Forall (λ w, w = Exited) ws → sum_list (busy <$> ws) = 0.
Proof. induction 1 as [|w ws -> _ IH]; [done|]. simpl. apply IH. Qed.

(** The main thread gets past its joins only when every line has been
    pushed to the output queue. *)
Lemma MainSignal_enabled s s' :
  0 < num_threads →
  wf_state targets num_threads lines s →
  do_action MainSignal s = Some s' →
  length lines = length (output_queue s) + length (out_file s).
Proof.
  intros Hpos (_ & Hn & _ & _ & Hfr & Hex & _ & _ & (popped & Hl & Hc) & _) Ha.
  destruct s as [ts si inp iq fr ws oq lp fp out wd term].
  cbn [do_action] in Ha. destruct term; [done|].
  destruct (fr && forallb is_exited ws && negb fp)%bool eqn:E; [|done].
  apply andb_true_iff in E as [[-> Hall%forallb_is_exited]%andb_true_iff _].
  clear Ha. unfold in_flight in *. simpl in *.
  match goal with
  | Hall : Forall (λ w, w = Exited) ws |- _ =>
      rewrite (in_flight_Exited _ Hall) in Hc;
      assert (Exited ∈ ws) as [_ Hiq]%Hex
        by (destruct ws as [|w ws']; [simpl in Hn; lia|];
            inversion_clear Hall as [|?? -> _]; left)
  end.
  rewrite Hfr, Hiq, !app_nil_r in Hl by done. subst popped. lia.
Qed.

Lemma writer_failed_reachable s :
  0 < num_threads →
  MAX_QUEUE_SIZE < length lines →
  reachable_writer_failed (start targets num_threads lines) s →
  out_file s = [] ∧ finished_processing s = false ∧ writer_done s = false.
Proof.
  intros Hpos Hlong Hreach. pose proof Hreach as Hr. revert s Hreach Hr.
  apply (rtc_ind_r
    (λ s, reachable_writer_failed (start targets num_threads lines) s →
          out_file s = [] ∧ finished_processing s = false ∧
          writer_done s = false)); [done|].
  intros s1 s2 Hreach (a & Hw & Ha) IH _.
  destruct (IH Hreach) as (Hout & Hfp & Hwd).
  pose proof (wf_reachable _ _ _ _
                (reachable_writer_failed_reachable _ _ Hreach)) as Hwf.
  assert (a = MainSignal ∨ a ≠ MainSignal) as [->|Hmain]
    by (destruct a; (by left) || (by right)).
  - pose proof (MainSignal_enabled _ _ Hpos Hwf Ha) as Hlen.
    destruct Hwf as (_ & _ & _ & HqB & _). rewrite Hout in Hlen.
    simpl in Hlen. lia.
  - clear Hwf. invert_action Ha; simpl in *; done.
Qed.
End writer_failed.


